(** * Scene editor components: selection, translate drag, outline, camera

    A shallow embedding of [src/components.ts] (the [Selector] and
    [CameraController] components and the module-level outline state) together
    with the properties the specification states about them.

    Conventions of the embedding.
    - JavaScript numbers are idealised as exact rationals ([Q]): rounding and
      non-finite values are outside the model.  The one place where the code
      itself tests for a non-number (the distance returned by the plane
      intersection, "could be NaN") is modelled by [option Q], [None] being NaN.
      What a translate drag computes on the host's vectors is embedded a second
      time over the host's own arithmetic (class [Cells], module [OnCells]).
    - A JavaScript [Set] iterates in insertion order: it is a duplicate-free
      list in insertion order (module [JSSet]).
    - Objects indexed by id (the engine's game objects, the edit passed to
      [applyEdit], the per-selector fields reached through other components)
      are finite maps keyed by the id.
    - Methods are state-passing functions: they take [this] and the shared
      state they touch and return the updated values.
    - Functions of the host math library that are not rational (vector
      normalisation, quaternions) are the fields of the class [Host]. *)

From Stdlib Require Import QArith Qround Qabs Qminmax Lia Lqa.
From stdpp Require Import base option list strings gmap.

(** ** Numbers *)

Module Math.
Local Open Scope Q_scope.

Definition max (a b : Q) : Q := Qmax a b.
Definition min (a b : Q) : Q := Qmin a b.
Definition abs (a : Q) : Q := Qabs a.

(** [Math.sign]: -1, 0 or 1. *)
Definition sign (a : Q) : Q := inject_Z (Z.sgn (Qnum a)).

(** [Math.round]: the nearest integer, halves going up. *)
Definition round (a : Q) : Q := inject_Z (Qfloor (a + (1 # 2))).
End Math.

(** [clamp] of the host math library: [Math.min(Math.max(value, min), max)]. *)
Definition clamp (value lo hi : Q) : Q := Math.min (Math.max value lo) hi.

(** ** Vectors (the operations of the host's [vec3] used by the components;
    the [out] argument of the original is the returned value) *)

Module vec3.
Local Open Scope Q_scope.

Record t : Type := make { x : Q; y : Q; z : Q }.

Definition create : t := make 0 0 0.
Definition fromValues (a b c : Q) : t := make a b c.
Definition add (a b : t) : t := make (x a + x b) (y a + y b) (z a + z b).
Definition subtract (a b : t) : t := make (x a - x b) (y a - y b) (z a - z b).
Definition scale (a : t) (s : Q) : t := make (x a * s) (y a * s) (z a * s).
Definition scaleAndAdd (a b : t) (s : Q) : t :=
  make (x a + x b * s) (y a + y b * s) (z a + z b * s).
Definition round (a : t) : t := make (Math.round (x a)) (Math.round (y a)) (Math.round (z a)).
Definition min (a b : t) : t := make (Math.min (x a) (x b)) (Math.min (y a) (y b)) (Math.min (z a) (z b)).
Definition max (a b : t) : t := make (Math.max (x a) (x b)) (Math.max (y a) (y b)) (Math.max (z a) (z b)).
End vec3.

(** ** JavaScript sets *)

Module JSSet.
Section Ops.
Context {A : Type} `{EqDecision A}.

Definition has (s : list A) (i : A) : bool := bool_decide (i ∈ s).
Definition add (s : list A) (i : A) : list A := if has s i then s else s ++ [i].
Definition delete (s : list A) (i : A) : list A := filter (λ j, j ≠ i) s.
Definition clear (s : list A) : list A := [].
Definition size (s : list A) : nat := length s.
End Ops.
End JSSet.

(** ** Host types *)

Module Plane.
Record t : Type := fromValues { nx : Q; ny : Q; nz : Q; constant : Q }.
End Plane.

Module Ray.
Record t : Type := make { origin : vec3.t; direction : vec3.t }.

(** [Ray.getPoint]: the point at [distance] along the ray. *)
Definition getPoint (r : t) (distance : Q) : vec3.t :=
  vec3.scaleAndAdd (origin r) (direction r) distance.
End Ray.

Module Bounds.
Record t : Type := make { min : vec3.t; max : vec3.t }.
End Bounds.

Module GameObject.
(** The identity of a game object: its unique [id] and its display [name]. *)
Record t : Type := make { id : string; name : string }.

#[global] Instance eq_dec : EqDecision t.
Proof. solve_decision. Defined.
End GameObject.

(** What a [Hover] carries for the components. *)
Record Hover : Type := mkHover {
  worldPosition : vec3.t;
  viewMovement : vec3.t;
}.

(** The key and mouse button states the handlers read:
    [controlKeyState.current], [shiftKeyState.current],
    [mouse.getButtonState(0).current] and [mouse.getButtonState(1).current]. *)
Record Keys : Type := mkKeys {
  control : bool;
  shift : bool;
  button0 : bool;
  button1 : bool;
}.

(** The functions of the host engine that the components call and that have no
    rational definition, and the render engine's overlap query. *)
Class Host : Type := {
  quat : Type;
  quat_fromEuler : Q → Q → Q → quat;
  vec3_transformQuat : vec3.t → quat → vec3.t;
  vec3_normalize : vec3.t → vec3.t;
  (** the distance along the ray to the plane, [None] when it is NaN *)
  Plane_intersectRay : Plane.t → vec3.t → vec3.t → option Q;
  (** the game objects (all carrying a selector) whose bounds overlap *)
  overlapBounds : Bounds.t → list GameObject.t;
}.

Definition xzPlane : Plane.t := Plane.fromValues 0 1 0 0.

(** a scale that's very small, but nonzero *)
Definition SMALL_SCALE : Q := 1 # 1000000.

(** [distance > 0] on numbers. *)
Definition positive (q : Q) : bool := negb (Qle_bool q 0).

(** ** The components *)

(** The outcome of a handler that may be cut short by an exception
    ([gameObjects.require] throws on an unknown id): the state it leaves. *)
Inductive outcome (S : Type) : Type :=
  | Returned (s : S)
  | Thrown (s : S).
Arguments Returned {S} s.
Arguments Thrown {S} s.

Definition state_of {S : Type} (o : outcome S) : S :=
  match o with Returned s => s | Thrown s => s end.

(** The transform of the marquee's [select] game object.  The object has no
    parent, so its [localPosition] is its [position]; it lies on the
    non-interactive layer, which the overlap query and the selection leave out,
    and is not listed among the game objects below. *)
Record Region : Type := mkRegion {
  region_position : vec3.t;
  region_localScale : vec3.t;
}.

(** The state shared by the components: the editor's [selection], the engine's
    game objects (by id, with their [transform.position]), the [groupHovered]
    flag of each selector (by the id of its game object; absent is the initial
    [false]) and the module-level sets [selectors] and [lastSelectors], whose
    elements are named by the game object each selector belongs to. *)
Record World : Type := mkWorld {
  selection : list string;
  gameObjects : gmap string vec3.t;
  groupHovered : gmap string bool;
  selectors : list GameObject.t;
  lastSelectors : list GameObject.t;
}.

Definition set_selection (w : World) (s : list string) : World :=
  mkWorld s (gameObjects w) (groupHovered w) (selectors w) (lastSelectors w).

(** What the [this] of a [Selector] holds for the pointer handlers. *)
Record Selector : Type := mkSelector {
  gameObject : GameObject.t;
  transform_position : vec3.t;
  _intersectionToCenter : option vec3.t;
}.

Definition set_intersectionToCenter (this : Selector) (v : option vec3.t) : Selector :=
  mkSelector (gameObject this) (transform_position this) v.

(** What [applyEdit] receives from a translate drag, if anything:
    for each edited id its new [transform.position]. *)
Inductive DragResult : Type :=
  | NoEdit
  | Applied (edit : gmap string vec3.t)
  | DragThrown.

Section Components.
Context `{Host}.

Record CameraController : Type := mkCamera {
  target : vec3.t;
  azimuth : Q;
  elevation : Q;
  distance : Q;
  _selectRegion : option Region;
  _selectStartPosition : vec3.t;
  (** [this.transform] *)
  position : vec3.t;
  rotation : quat;
}.

(** *** CameraController *)

(** [getXZPlaneIntersection (hover, result)]: the boolean returned and the
    contents of [result] afterwards. *)
Definition getXZPlaneIntersection (this : CameraController) (hover : Hover)
    (result : vec3.t) : bool * vec3.t :=
  let origin := position this in
  let direction := vec3_normalize (vec3.subtract (worldPosition hover) origin) in
  match Plane_intersectRay xzPlane origin direction with
  | Some distance =>
      if negb (positive distance) then (false, result)
      else (true, Ray.getPoint (Ray.make origin direction) distance)
  | None => (false, result) (* could be NaN *)
  end.

(** The callback that [awake] subscribes to the joined properties. *)
Definition onValue (this : CameraController) : CameraController :=
  let rotation := quat_fromEuler (elevation this) (azimuth this) 0 in
  let offset := vec3_transformQuat (vec3.make 0 0 (distance this)) rotation in
  mkCamera (target this) (azimuth this) (elevation this) (distance this)
    (_selectRegion this) (_selectStartPosition this)
    (vec3.add (target this) offset) rotation.

(** An assignment to the properties, followed by the reactive update. *)
Definition setProperties (this : CameraController) (t : vec3.t) (az el d : Q) :
    CameraController :=
  onValue (mkCamera t az el d (_selectRegion this) (_selectStartPosition this)
             (position this) (rotation this)).

Definition setSelect (this : CameraController) (r : option Region) (start : vec3.t) :
    CameraController :=
  mkCamera (target this) (azimuth this) (elevation this) (distance this)
    r start (position this) (rotation this).

(** The controller once [awake] has run on the declared initial values. *)
Definition awake : CameraController :=
  let rotation := quat_fromEuler (-45) 0 0 in
  mkCamera vec3.create 0 (-45) 10 None vec3.create
    (vec3.add vec3.create (vec3_transformQuat (vec3.make 0 0 10) rotation)) rotation.

Definition reset (this : CameraController) : CameraController :=
  setProperties this (vec3.make 0 0 0) 0 (-45) 10.

Definition _addToDistance (this : CameraController) (amount : Q) : CameraController :=
  setProperties this (target this) (azimuth this) (elevation this)
    (Math.max (1 # 2) (distance this + amount)).

Definition onWheel (this : CameraController) (hover : Hover) (delta : vec3.t) :
    CameraController :=
  _addToDistance this ((1 # 2) * Math.sign (vec3.y delta)).

Definition set_marquee (w : World) (gh : gmap string bool)
    (sel last : list GameObject.t) : World :=
  mkWorld (selection w) (gameObjects w) gh sel last.

Definition CameraController_onPointerDown (keys : Keys) (hover : Hover)
    (w : World) (this : CameraController) : World * CameraController :=
  if button0 keys && shift keys then
    let w := set_selection w (JSSet.clear (selection w)) in
    match getXZPlaneIntersection this hover (_selectStartPosition this) with
    | (false, _) => (w, this)
    | (true, start) =>
        (w, setSelect this
              (Some (mkRegion start (vec3.fromValues SMALL_SCALE 1 SMALL_SCALE)))
              start)
    end
  else (w, this).

(** The bounds handed to [overlapBounds] for the marquee from
    [_selectStartPosition] to the intersection [tmpv]. *)
Definition marqueeBounds (start tmpv : vec3.t) : Bounds.t :=
  let lo := vec3.min start tmpv in
  let hi := vec3.max start tmpv in
  Bounds.make (vec3.make (vec3.x lo) (vec3.y lo - (1 # 2)) (vec3.z lo))
              (vec3.make (vec3.x hi) (vec3.y hi + (1 # 2)) (vec3.z hi)).

Definition hoverAll (gh : gmap string bool) (transforms : list GameObject.t) :
    gmap string bool :=
  foldl (λ g o, <[GameObject.id o := true]> g) gh transforms.

Definition unhoverMissing (sel : list GameObject.t) (gh : gmap string bool)
    (last : list GameObject.t) : gmap string bool :=
  foldl (λ g o, if JSSet.has sel o then g else <[GameObject.id o := false]> g) gh last.

Definition CameraController_onPointerDrag (keys : Keys) (hover : Hover)
    (w : World) (this : CameraController) : World * CameraController :=
  match _selectRegion this with
  | Some region =>
      match getXZPlaneIntersection this hover vec3.create with
      | (false, _) => (w, this)
      | (true, tmpv) =>
          let start := _selectStartPosition this in
          let region' :=
            mkRegion
              (vec3.scale (vec3.add start tmpv) (1 # 2))
              (vec3.make
                 (Math.max SMALL_SCALE (Math.abs (vec3.x tmpv - vec3.x start)))
                 1
                 (Math.max SMALL_SCALE (Math.abs (vec3.z tmpv - vec3.z start)))) in
          let transforms := overlapBounds (marqueeBounds start tmpv) in
          let gh := hoverAll (groupHovered w) transforms in
          let sel := foldl JSSet.add (selectors w) transforms in
          let gh := unhoverMissing sel gh (lastSelectors w) in
          (* lastSelectors.clear(); [selectors, lastSelectors] = [lastSelectors, selectors] *)
          (set_marquee w gh (JSSet.clear (lastSelectors w)) sel,
           setSelect this (Some region') start)
      end
  | None =>
      if button0 keys then
        (w, setProperties this (target this)
              (azimuth this + vec3.x (viewMovement hover) * -180)
              (clamp (elevation this + vec3.y (viewMovement hover) * 180) (-90) 90)
              (distance this))
      else if button1 keys then
        (w, _addToDistance this (vec3.y (viewMovement hover) * -20))
      else
        let tmpv :=
          vec3_transformQuat
            (vec3.make (- vec3.x (viewMovement hover)) 0 (vec3.y (viewMovement hover)))
            (quat_fromEuler 0 (azimuth this) 0) in
        (w, setProperties this (vec3.scaleAndAdd (target this) tmpv (distance this))
              (azimuth this) (elevation this) (distance this))
  end.

(** The loop of [onPointerUp] over [lastSelectors]. *)
Definition releaseAll (w : World) (last : list GameObject.t) : World :=
  foldl (λ w selector,
           mkWorld (JSSet.add (selection w) (GameObject.name selector))
                   (gameObjects w)
                   (<[GameObject.id selector := false]> (groupHovered w))
                   (selectors w) (lastSelectors w))
        w last.

Definition CameraController_onPointerUp (w : World) (this : CameraController) :
    World * CameraController :=
  match _selectRegion this with
  | Some _ =>
      let this := setSelect this None (_selectStartPosition this) in
      if bool_decide (0 < JSSet.size (lastSelectors w))%nat then
        let w := releaseAll w (lastSelectors w) in
        (set_marquee w (groupHovered w) (selectors w) (JSSet.clear (lastSelectors w)), this)
      else (w, this)
  | None => (w, this)
  end.

(** *** Selector *)

(** [activeCamera] is [renderEngine.activeCameras[0]], if there is one. *)
Definition Selector_getXZPlaneIntersection (activeCamera : option CameraController)
    (hover : Hover) (result : vec3.t) : bool * vec3.t :=
  match activeCamera with
  | None => (false, result)
  | Some controller => getXZPlaneIntersection controller hover result
  end.

(** [gameObjects.require(id).transform.position]; [None] when it throws. *)
Definition require (w : World) (i : string) : option vec3.t := gameObjects w !! i.

Fixpoint sumPositions (w : World) (center : vec3.t) (ids : list string) : option vec3.t :=
  match ids with
  | [] => Some center
  | i :: rest =>
      match require w i with
      | Some p => sumPositions w (vec3.add center p) rest
      | None => None
      end
  end.

Definition _getCenter (w : World) (this : Selector) : option vec3.t :=
  if negb (JSSet.has (selection w) (GameObject.id (gameObject this)))
  then Some (transform_position this)
  else
    match sumPositions w vec3.create (selection w) with
    | Some center =>
        Some (vec3.scale center (1 / inject_Z (Z.of_nat (JSSet.size (selection w)))))
    | None => None
    end.

(** The selection after the first statement of [Selector.onPointerDown]. *)
Definition clickSelection (keys : Keys) (i : string) (sel : list string) : list string :=
  if control keys then
    if JSSet.has sel i then JSSet.delete sel i else JSSet.add sel i
  else if negb (JSSet.has sel i) then JSSet.add (JSSet.clear sel) i
  else sel.

Definition Selector_onPointerDown (activeCamera : option CameraController)
    (keys : Keys) (hover : Hover) (w : World) (this : Selector) :
    outcome (World * Selector) :=
  let w := set_selection w (clickSelection keys (GameObject.id (gameObject this)) (selection w)) in
  match Selector_getXZPlaneIntersection activeCamera hover vec3.create with
  | (true, intersection) =>
      match _getCenter w this with
      | Some center =>
          Returned (w, set_intersectionToCenter this (Some (vec3.subtract center intersection)))
      | None => Thrown (w, this)
      end
  | (false, _) => Returned (w, set_intersectionToCenter this None)
  end.

(** The loop of [onPointerDrag] that fills the edit for the selected ids. *)
Fixpoint editAll (w : World) (oldCenter newCenter : vec3.t) (edit : gmap string vec3.t)
    (ids : list string) : option (gmap string vec3.t) :=
  match ids with
  | [] => Some edit
  | i :: rest =>
      match require w i with
      | Some p =>
          let offset := vec3.subtract p oldCenter in
          editAll w oldCenter newCenter (<[i := vec3.add offset newCenter]> edit) rest
      | None => None
      end
  end.

(** The centre a drag moves the group to: the intersection plus the stored
    offset, snapped to the grid relative to the old centre unless shift is held. *)
Definition dragCenter (keys : Keys) (intersection i2c oldCenter : vec3.t) : vec3.t :=
  let newCenter := vec3.add intersection i2c in
  if negb (shift keys) then
    let delta := vec3.round (vec3.subtract newCenter oldCenter) in
    vec3.add oldCenter delta
  else newCenter.

Definition Selector_onPointerDrag (activeCamera : option CameraController)
    (keys : Keys) (hover : Hover) (w : World) (this : Selector) : DragResult :=
  match _intersectionToCenter this with
  | None => NoEdit
  | Some i2c =>
      match Selector_getXZPlaneIntersection activeCamera hover vec3.create with
      | (false, _) => NoEdit
      | (true, intersection) =>
          match _getCenter w this with
          | None => DragThrown
          | Some oldCenter =>
              let newCenter := dragCenter keys intersection i2c oldCenter in
              if JSSet.has (selection w) (GameObject.id (gameObject this)) then
                match editAll w oldCenter newCenter ∅ (selection w) with
                | Some edit => Applied edit
                | None => DragThrown
                end
              else Applied {[ GameObject.id (gameObject this) := newCenter ]}
          end
      end
  end.
End Components.

(** *** The events a camera controller receives *)

Inductive CameraEvent : Type :=
  | PointerDown (keys : Keys) (hover : Hover)
  | PointerDrag (keys : Keys) (hover : Hover)
  | PointerUp
  | Wheel (hover : Hover) (delta : vec3.t)
  | Reset.

Section CameraRuns.
Context `{Host}.

Definition cameraStep (s : World * CameraController) (e : CameraEvent) :
    World * CameraController :=
  match e with
  | PointerDown keys hover => CameraController_onPointerDown keys hover s.1 s.2
  | PointerDrag keys hover => CameraController_onPointerDrag keys hover s.1 s.2
  | PointerUp => CameraController_onPointerUp s.1 s.2
  | Wheel hover delta => (s.1, onWheel s.2 hover delta)
  | Reset => (s.1, reset s.2)
  end.

Definition cameraRun (s : World * CameraController) (es : list CameraEvent) :
    World * CameraController :=
  foldl cameraStep s es.
End CameraRuns.

(** ** The translate drag on the host's cells

    In the host a [vec3] is an array of 32-bit floating point cells and a
    number is a double: their sums, differences, products and roundings are
    not those of the rationals.  For what a translate drag computes, the
    host's vectors, the functions on them that [Selector._getCenter] and
    [Selector.onPointerDrag] call, the division [1 / n] and what
    [Selector._getXZPlaneIntersection] answers for a hover are the fields of
    [Cells].  Nothing is assumed of them. *)

Class Cells : Type := {
  (** the host's [vec3] *)
  cells : Type;
  (** a JavaScript number *)
  number : Type;
  cells_create : cells;
  cells_add : cells → cells → cells;
  cells_subtract : cells → cells → cells;
  cells_round : cells → cells;
  cells_scale : cells → number → cells;
  (** [1 / n] for the size [n] of a set *)
  one_over : nat → number;
  (** what a handler is passed as its hover, and
      [this._getXZPlaneIntersection (hover, result)] on it: the boolean
      returned and the contents of [result] afterwards *)
  pointer : Type;
  cells_intersection : pointer → cells → bool * cells;
}.

Module OnCells.
Section Drag.
Context `{Cells}.

(** The editor's [selection] and the engine's game objects (by id, with their
    [transform.position]). *)
Record Scene : Type := mkScene {
  selection : list string;
  gameObjects : gmap string cells;
}.

Record Selector : Type := mkSelector {
  gameObject_id : string;
  transform_position : cells;
  _intersectionToCenter : option cells;
}.

Inductive DragResult : Type :=
  | NoEdit
  | Applied (edit : gmap string cells)
  | DragThrown.

(** [gameObjects.require(id).transform.position]; [None] when it throws. *)
Definition require (w : Scene) (i : string) : option cells := gameObjects w !! i.

Fixpoint sumPositions (w : Scene) (center : cells) (ids : list string) : option cells :=
  match ids with
  | [] => Some center
  | i :: rest =>
      match require w i with
      | Some p => sumPositions w (cells_add center p) rest
      | None => None
      end
  end.

Definition _getCenter (w : Scene) (this : Selector) : option cells :=
  if negb (JSSet.has (selection w) (gameObject_id this))
  then Some (transform_position this)
  else
    match sumPositions w cells_create (selection w) with
    | Some center => Some (cells_scale center (one_over (JSSet.size (selection w))))
    | None => None
    end.

Fixpoint editAll (w : Scene) (oldCenter newCenter : cells) (edit : gmap string cells)
    (ids : list string) : option (gmap string cells) :=
  match ids with
  | [] => Some edit
  | i :: rest =>
      match require w i with
      | Some p =>
          let offset := cells_subtract p oldCenter in
          editAll w oldCenter newCenter (<[i := cells_add offset newCenter]> edit) rest
      | None => None
      end
  end.

(** [shiftKey] is [shiftKeyState.current]. *)
Definition onPointerDrag (shiftKey : bool) (hover : pointer) (w : Scene)
    (this : Selector) : DragResult :=
  match _intersectionToCenter this with
  | None => NoEdit
  | Some i2c =>
      match cells_intersection hover cells_create with
      | (false, _) => NoEdit
      | (true, intersection) =>
          match _getCenter w this with
          | None => DragThrown
          | Some oldCenter =>
              let newCenter := cells_add intersection i2c in
              let newCenter :=
                if negb shiftKey then
                  let delta := cells_round (cells_subtract newCenter oldCenter) in
                  cells_add oldCenter delta
                else newCenter in
              if JSSet.has (selection w) (gameObject_id this) then
                match editAll w oldCenter newCenter ∅ (selection w) with
                | Some edit => Applied edit
                | None => DragThrown
                end
              else Applied {[ gameObject_id this := newCenter ]}
          end
      end
  end.


End Drag.
End OnCells.

(** The cells of the embedding above: vectors of rationals, with the
    intersection routine of the camera. *)
Definition exactCells `{Host} : Cells := {|
  cells := vec3.t;
  number := Q;
  cells_create := vec3.create;
  cells_add := vec3.add;
  cells_subtract := vec3.subtract;
  cells_round := vec3.round;
  cells_scale := vec3.scale;
  one_over := λ n, (1 / inject_Z (Z.of_nat n))%Q;
  pointer := option CameraController * Hover;
  cells_intersection := λ ph result, Selector_getXZPlaneIntersection ph.1 ph.2 result;
|}.

Definition sceneOf `{Host} (w : World) : OnCells.Scene (H := exactCells) :=
  OnCells.mkScene (H := exactCells) (selection w) (gameObjects w).

Definition selectorOf `{Host} (this : Selector) : OnCells.Selector (H := exactCells) :=
  OnCells.mkSelector (H := exactCells) (GameObject.id (gameObject this))
    (transform_position this) (_intersectionToCenter this).

Definition resultOf `{Host} (r : DragResult) : OnCells.DragResult (H := exactCells) :=
  match r with
  | NoEdit => OnCells.NoEdit
  | Applied edit => OnCells.Applied (H := exactCells) edit
  | DragThrown => OnCells.DragThrown
  end.

(** ** The outline state *)

(** A three.js object: a node, which may be a [Mesh], and its children.  Nodes
    are named by a number; their mutable state lives in the store below. *)
#[local] Unset Elimination Schemes.
Inductive Object3D : Type :=
  | Node (node : nat) (isMesh : bool) (children : list Object3D).
#[local] Set Elimination Schemes.

(** The nodes [object.traverse] hands to a callback that skips non-meshes. *)
Fixpoint meshNodes (o : Object3D) : list nat :=
  match o with
  | Node n isMesh children =>
      (if isMesh then [n] else []) ++
      (fix go (l : list Object3D) : list nat :=
         match l with
         | [] => []
         | c :: l => meshNodes c ++ go l
         end) children
  end.

(** The pair [onBeforeRender]/[onAfterRender] of a mesh: [Noop] (or the
    defaults), or the two closures made by [_setOutline], which share the
    variable [previousOpacity]. *)
Inductive RenderHooks : Type :=
  | Noop
  | ForceOpacity (selected : bool) (previousOpacity : Q).

Record Mesh : Type := mkMesh {
  (** whether [OUTLINE_LAYER] is enabled in [layers] *)
  outlineLayer : bool;
  hooks : RenderHooks;
}.

(** [onBeforeRender] on a material of the given opacity: the hooks and the
    material's opacity afterwards. *)
Definition onBeforeRender (h : RenderHooks) (opacity : Q) : RenderHooks * Q :=
  match h with
  | Noop => (Noop, opacity)
  | ForceOpacity selected _ =>
      (ForceOpacity selected opacity, if selected then 4 # 5 else 2 # 5)
  end.

(** [onAfterRender]: the material's opacity afterwards. *)
Definition onAfterRender (h : RenderHooks) (opacity : Q) : Q :=
  match h with
  | Noop => opacity
  | ForceOpacity _ previousOpacity => previousOpacity
  end.

(** One render of a mesh: the opacity it is drawn with and the opacity its
    material is left with. *)
Definition renderMesh (m : Mesh) (opacity : Q) : Q * Q :=
  let '(h, drawn) := onBeforeRender (hooks m) opacity in
  (drawn, onAfterRender h drawn).

Inductive Remover : Type :=
  | NoopRemover
  (** [() => { threeRenderEngine.onAfterRender = undefined }] *)
  | RemoveHook.

(** The module-level outline variables, the render engine's [onAfterRender]
    hook (installed or not), the meshes' state (absent: never touched, layer
    disabled and default hooks) and every selector's [_outlineObject] (by the
    id of the selector's game object; absent is [undefined]). *)
Record Outline : Type := mkOutline {
  outlineCount : Z;
  outlineRemover : Remover;
  renderTarget : bool;
  engineOnAfterRender : bool;
  meshes : gmap nat Mesh;
  _outlineObject : gmap string Object3D;
}.

Definition initialOutline : Outline := mkOutline 0 NoopRemover false false ∅ ∅.

Definition setMeshes (m : Mesh) (st : gmap nat Mesh) (nodes : list nat) : gmap nat Mesh :=
  foldl (λ st n, <[n := m]> st) st nodes.

Definition runRemover (r : Remover) (hook : bool) : bool :=
  match r with NoopRemover => hook | RemoveHook => false end.

Definition _clearOutline (st : Outline) (this : string) : Outline :=
  match _outlineObject st !! this with
  | None => st
  | Some object =>
      let ms := setMeshes (mkMesh false Noop) (meshes st) (meshNodes object) in
      let count := (outlineCount st - 1)%Z in
      mkOutline count (outlineRemover st) (renderTarget st)
        (if bool_decide (count = 0%Z)
         then runRemover (outlineRemover st) (engineOnAfterRender st)
         else engineOnAfterRender st)
        ms (delete this (_outlineObject st))
  end.

Definition _setOutline (st : Outline) (this : string) (object : Object3D)
    (selected : bool) : Outline :=
  let st := _clearOutline st this in
  let ms := setMeshes (mkMesh true (ForceOpacity selected 0)) (meshes st) (meshNodes object) in
  let count := (outlineCount st + 1)%Z in
  if bool_decide (count = 1%Z) then
    mkOutline count RemoveHook true true ms (<[this := object]> (_outlineObject st))
  else
    mkOutline count (outlineRemover st) (renderTarget st) (engineOnAfterRender st)
      ms (<[this := object]> (_outlineObject st)).

(** The callback that [Selector.awake] subscribes: [hoverable] is the value of
    the game object's hoverable property, if any, as the pair of
    [hovers.sizeValue] and [objectValue]. *)
Definition Selector_onValue (st : Outline) (this : string)
    (hoverable : option (nat * option Object3D)) (groupHovered selected : bool) : Outline :=
  let '(hovered, object) :=
    match hoverable with
    | None => (0%nat, None)
    | Some (size, object) => (size, object)
    end in
  match object with
  | Some object =>
      if negb (Nat.eqb hovered 0) || groupHovered || selected
      then _setOutline st this object selected
      else _clearOutline st this
  | None => _clearOutline st this
  end.

Inductive OutlineOp : Type :=
  | SetOutline (this : string) (object : Object3D) (selected : bool)
  | ClearOutline (this : string).

Definition outlineStep (st : Outline) (op : OutlineOp) : Outline :=
  match op with
  | SetOutline this object selected => _setOutline st this object selected
  | ClearOutline this => _clearOutline st this
  end.

(** One delivery of the joined value to the callback of a selector. *)
Record Delivery : Type := mkDelivery {
  receiver : string;
  deliveredHoverable : option (nat * option Object3D);
  deliveredGroupHovered : bool;
  deliveredSelected : bool;
}.

Definition deliver (st : Outline) (d : Delivery) : Outline :=
  Selector_onValue st (receiver d) (deliveredHoverable d)
    (deliveredGroupHovered d) (deliveredSelected d).

(** The outline state after the deliveries, in order, from the start. *)
Definition deliverAll (ds : list Delivery) : Outline := foldl deliver initialOutline ds.

(** The outline pass of the compositing hook, seen from one mesh: when the hook
    is installed (and its render target exists) the scene is rendered into the
    render target with the camera's layers set to the outline layer, so the
    mesh is drawn there when that layer is enabled on it, with the opacity its
    render hooks give it.  [None]: the mesh is not drawn into the target. *)
Definition outlinePass (st : Outline) (n : nat) (opacity : Q) : option Q :=
  if engineOnAfterRender st && renderTarget st then
    match meshes st !! n with
    | Some m => if outlineLayer m then Some (renderMesh m opacity).1 else None
    | None => None
    end
  else None.

(** ** A host to run the handlers on concrete inputs

    Exact arithmetic; directions are left unnormalised (the distance is then
    counted in lengths of the direction, and the point of intersection is the
    same) and every rotation is the quarter turn about the x axis that takes
    the z axis to the y axis, so that the camera looks straight down.  The
    scene lists the game objects that carry a selector with their position; an
    object overlaps a region when its position lies in it. *)

Definition inBounds (b : Bounds.t) (p : vec3.t) : bool :=
  Qle_bool (vec3.x (Bounds.min b)) (vec3.x p) && Qle_bool (vec3.x p) (vec3.x (Bounds.max b)) &&
  Qle_bool (vec3.y (Bounds.min b)) (vec3.y p) && Qle_bool (vec3.y p) (vec3.y (Bounds.max b)) &&
  Qle_bool (vec3.z (Bounds.min b)) (vec3.z p) && Qle_bool (vec3.z p) (vec3.z (Bounds.max b)).

Definition exactIntersectRay (p : Plane.t) (origin direction : vec3.t) : option Q :=
  let dividend :=
    (- (Plane.nx p * vec3.x origin + Plane.ny p * vec3.y origin
        + Plane.nz p * vec3.z origin + Plane.constant p))%Q in
  let divisor :=
    (Plane.nx p * vec3.x direction + Plane.ny p * vec3.y direction
     + Plane.nz p * vec3.z direction)%Q in
  if Qeq_bool divisor 0 then None else Some (dividend / divisor)%Q.

Definition exactHost (scene : list (GameObject.t * vec3.t)) : Host := {|
  quat := unit;
  quat_fromEuler := λ _ _ _, tt;
  vec3_transformQuat := λ v _, vec3.make (vec3.x v) (vec3.z v) (- vec3.y v);
  vec3_normalize := λ v, v;
  Plane_intersectRay := exactIntersectRay;
  overlapBounds := λ b, (filter (λ o, inBounds b o.2 = true) scene).*1;
|}.

(** ** A small scene

    Two game objects with selectors, a crate (id 7) and a barrel (id 9), seen by
    a camera ten units above the origin. *)

Module Scenario.
Definition crate : GameObject.t := GameObject.make "7" "crate".
Definition barrel : GameObject.t := GameObject.make "9" "barrel".

Definition scene : list (GameObject.t * vec3.t) :=
  [(crate, vec3.make 1 0 1); (barrel, vec3.make 4 0 2)].

Definition host : Host := exactHost scene.

Definition positions : gmap string vec3.t :=
  {[ "7" := vec3.make 1 0 1; "9" := vec3.make 4 0 2 ]}.

(** Nothing selected. *)
Definition world : World := mkWorld [] positions ∅ [] [].

(** Both objects selected. *)
Definition worldBoth : World := mkWorld ["7"; "9"] positions ∅ [] [].

Definition camera : CameraController := awake (H := host).

Definition hoverAt (x z : Q) : Hover := mkHover (vec3.make x 0 z) vec3.create.

Definition noKeys : Keys := mkKeys false false false false.
Definition controlKeys : Keys := mkKeys true false true false.
Definition marqueeKeys : Keys := mkKeys false true true false.

(** A marquee dragged from the origin to (2, 0, 2): it covers the crate only. *)
Definition marquee : list CameraEvent :=
  [PointerDown marqueeKeys (hoverAt 0 0); PointerDrag marqueeKeys (hoverAt 2 2); PointerUp].

(** The crate's selector, grabbed half a unit off the group's centre. *)
Definition crateSelector : Selector :=
  mkSelector crate (vec3.make 1 0 1) (Some (vec3.make (1 # 2) 0 (1 # 2))).

(** Where the ray towards (3, 0, 1) meets the plane, and the centre of the
    two objects. *)
Definition grabPoint : vec3.t :=
  Eval vm_compute in
    (Selector_getXZPlaneIntersection (H := host) (Some camera) (hoverAt 3 1) vec3.create).2.

Definition box : Object3D := Node 0 false [Node 1 true []; Node 2 true []].
End Scenario.

(** ** Gestures on the small scene *)

Module Gestures.

(** A selection that holds, beside the crate, an id no game object has. *)
Definition worldWithUnknown : World :=
  mkWorld ["7"; "ghost"] Scenario.positions ∅ [] [].

(** The two corners of the marquee of [Scenario.marquee] on the plane. *)
Definition marqueeStart : vec3.t :=
  Eval vm_compute in
    (getXZPlaneIntersection (H := Scenario.host) Scenario.camera (Scenario.hoverAt 0 0)
       vec3.create).2.
Definition marqueeEnd : vec3.t :=
  Eval vm_compute in
    (getXZPlaneIntersection (H := Scenario.host) Scenario.camera (Scenario.hoverAt 2 2)
       vec3.create).2.

(** The state once the marquee's pointer-down has run, and once its drag has. *)
Definition pressed : World * CameraController (H := Scenario.host) :=
  cameraRun (H := Scenario.host) (Scenario.world, Scenario.camera) (take 1 Scenario.marquee).
Definition dragged : World * CameraController (H := Scenario.host) :=
  cameraRun (H := Scenario.host) (Scenario.world, Scenario.camera) (take 2 Scenario.marquee).

Definition pressedRegion : Region :=
  Eval vm_compute in default (mkRegion vec3.create vec3.create) (_selectRegion pressed.2).

(** The crate's selector has outlined the box. *)
Definition outlineOps : list OutlineOp := [SetOutline "7" Scenario.box false].
End Gestures.

(** ** Deliveries to the selectors of the small scene *)

Module Deliveries.
(** The lid is a part of the crate's box; the lamp is not. *)
Definition lid : Object3D := Node 2 true [].
Definition lamp : Object3D := Node 5 true [].

Definition crateSelected : Delivery :=
  mkDelivery "7" (Some (0%nat, Some Scenario.box)) false true.
Definition lampHovered : Delivery := mkDelivery "9" (Some (1%nat, Some lamp)) false false.
Definition lidHovered : Delivery := mkDelivery "9" (Some (1%nat, Some lid)) false false.
Definition lidLeft : Delivery := mkDelivery "9" (Some (0%nat, Some lid)) false false.

(** The crate is selected and the lamp of another selector hovered. *)
Definition apart : list Delivery := [crateSelected; lampHovered].

(** The selector of the lid is hovered, the crate selected, the lid left. *)
Definition nested : list Delivery := [lidHovered; crateSelected; lidLeft].
End Deliveries.

(** ** A drag on the small scene, on vectors of rationals *)

Module CellScene.
Definition exact : Cells := exactCells (H := Scenario.host).

Definition hover : pointer (Cells := exact) :=
  (Some Scenario.camera, Scenario.hoverAt (33 # 10) (6 # 10)).


Definition scene : OnCells.Scene (H := exact) := sceneOf Scenario.worldBoth.
Definition selector : OnCells.Selector (H := exact) := selectorOf Scenario.crateSelector.
End CellScene.

(** ** Notions the properties are stated with *)

(** The ray [getXZPlaneIntersection] builds: from the camera's position
    towards the hover's world position. *)
Definition hoverRay `{Host} (this : CameraController) (hover : Hover) : Ray.t :=
  Ray.make (position this)
    (vec3_normalize (vec3.subtract (worldPosition hover) (position this))).

(** That ray meets the plane y = 0 at the strictly positive distance [d]. *)
Definition meetsXZPlane `{Host} (this : CameraController) (hover : Hover) (d : Q) : Prop :=
  Plane_intersectRay xzPlane (Ray.origin (hoverRay this hover))
    (Ray.direction (hoverRay this hover)) = Some d
  ∧ (0 < d)%Q.

(** The object a selector outlines: the object of its hoverable component, if
    there is one, when it is hovered, group-hovered or selected. *)
Definition outlined (hoverable : option (nat * option Object3D))
    (groupHovered selected : bool) : option Object3D :=
  match hoverable with
  | Some (hovers, Some object) =>
      if bool_decide (0 < hovers)%nat || groupHovered || selected then Some object else None
  | _ => None
  end.

(** The last delivery a selector received. *)
Definition latest (this : string) (ds : list Delivery) : option Delivery :=
  last (filter (λ d, receiver d = this) ds).

(** The render object a delivery names, if any. *)
Definition objectOf (d : Delivery) : option Object3D :=
  match deliveredHoverable d with
  | Some (_, object) => object
  | None => None
  end.

(** What a selector outlines after a delivery. *)
Definition outlinedBy (d : Delivery) : option Object3D :=
  outlined (deliveredHoverable d) (deliveredGroupHovered d) (deliveredSelected d).

(** The render objects of different selectors share no mesh. *)
Definition separate (ds : list Delivery) : Prop :=
  ∀ d1 d2 o1 o2 n,
    d1 ∈ ds → d2 ∈ ds → receiver d1 ≠ receiver d2 →
    objectOf d1 = Some o1 → objectOf d2 = Some o2 →
    n ∈ meshNodes o1 → n ∉ meshNodes o2.

(** How the outline state follows the deliveries: every selector holds what
    its last delivery outlines, the meshes of an outlined object are forced to
    the opacity of its selector, and every other mesh that was ever touched is
    back to no outline. *)
Definition outlineTracks (ds : list Delivery) (st : Outline) : Prop :=
  (∀ s, _outlineObject st !! s
        = match latest s ds with Some d => outlinedBy d | None => None end)
  ∧ (∀ s os d n, _outlineObject st !! s = Some os → latest s ds = Some d →
                 n ∈ meshNodes os →
                 meshes st !! n = Some (mkMesh true (ForceOpacity (deliveredSelected d) 0)))
  ∧ (∀ n m, meshes st !! n = Some m →
            m = mkMesh false Noop
            ∨ ∃ s os, _outlineObject st !! s = Some os ∧ n ∈ meshNodes os).

(** A mesh that takes part in the outline pass: its outline layer is enabled
    and every render draws it with the opacity [o], leaving the opacity of its
    material as it was. *)
Definition highlightedWith (o : Q) (m : Mesh) : Prop :=
  outlineLayer m = true ∧ ∀ opacity, renderMesh m opacity = (o, opacity).

(** A mesh that does not: the layer is disabled and renders draw it with the
    opacity of its material. *)
Definition notHighlighted (m : Mesh) : Prop :=
  outlineLayer m = false ∧ ∀ opacity, renderMesh m opacity = (opacity, opacity).

(** The invariant of the camera's orbit. *)
Definition orbitBounds `{Host} (c : CameraController) : Prop :=
  (-90 <= elevation c)%Q ∧ (elevation c <= 90)%Q ∧ ((1 # 2) <= distance c)%Q.


(** The invariant of the outline counter and of the compositing hook. *)
Definition outlineInv (st : Outline) : Prop :=
  outlineCount st = Z.of_nat (size (_outlineObject st))
  ∧ (engineOnAfterRender st = true ↔ (0 < outlineCount st)%Z)
  ∧ ((0 < outlineCount st)%Z → outlineRemover st = RemoveHook).

(** Game objects have unique ids: two objects the overlap query returns under
    the same id are the same object. *)
Definition uniqueIds `{Host} : Prop :=
  ∀ b b' o o',
    o ∈ overlapBounds b → o' ∈ overlapBounds b' →
    GameObject.id o = GameObject.id o' → o = o'.

(** The marquee's bookkeeping between two handlers: [selectors] is empty,
    [lastSelectors] is non-empty only while a region exists and holds objects
    the overlap query returned, and the selectors whose [groupHovered] is true
    are those of [lastSelectors]. *)
Definition marqueeInv `{Host} (s : World * CameraController) : Prop :=
  selectors s.1 = []
  ∧ (lastSelectors s.1 ≠ [] → is_Some (_selectRegion s.2))
  ∧ (∀ o, o ∈ lastSelectors s.1 → ∃ b, o ∈ overlapBounds b)
  ∧ (∀ i, groupHovered s.1 !! i = Some true
          ↔ ∃ o, o ∈ lastSelectors s.1 ∧ GameObject.id o = i).

(** The properties and the transform of a camera controller. *)
Definition pose `{Host} (c : CameraController) : vec3.t * Q * Q * Q * vec3.t * quat :=
  (target c, azimuth c, elevation c, distance c, position c, rotation c).

(** The outline state without the meshes. *)
Definition outlineBookkeeping (st : Outline) : Z * bool * gmap string Object3D :=
  (outlineCount st, engineOnAfterRender st, _outlineObject st).

(** * Properties *)

(** ** Sets *)

Module JSSetFacts.
Section Facts.
Context {A : Type} `{EqDecision A}.
Implicit Types (s : list A) (i j : A).

Lemma has_true s i : JSSet.has s i = true ↔ i ∈ s.
Proof. unfold JSSet.has. apply bool_decide_eq_true. Qed.

Lemma has_false s i : JSSet.has s i = false ↔ i ∉ s.
Proof. unfold JSSet.has. apply bool_decide_eq_false. Qed.

Lemma elem_of_add s i j : j ∈ JSSet.add s i ↔ j ∈ s ∨ j = i.
Proof.
  unfold JSSet.add. destruct (JSSet.has s i) eqn:E.
  - apply has_true in E. split; [auto | intros [?| ->]; done].
  - rewrite elem_of_app, list_elem_of_singleton. done.
Qed.

Lemma elem_of_delete s i j : j ∈ JSSet.delete s i ↔ j ∈ s ∧ j ≠ i.
Proof. unfold JSSet.delete. rewrite list_elem_of_filter. tauto. Qed.

Lemma add_NoDup s i : NoDup s → NoDup (JSSet.add s i).
Proof.
  intros Hs. unfold JSSet.add. destruct (JSSet.has s i) eqn:E; [done|].
  apply has_false in E. apply NoDup_app. split_and!; [done| |apply NoDup_singleton].
  intros x Hx ->%list_elem_of_singleton. done.
Qed.
End Facts.
End JSSetFacts.

(** ** Clicking a selector *)

Section SelectorClick.
Context `{Host}.
Implicit Types (w : World) (this : Selector) (keys : Keys) (hover : Hover).

(** Whatever the intersection and the centre do, the selection a pointer-down
    leaves is the one its first statement computes. *)
Lemma onPointerDown_selection cam keys hover w this :
  selection (state_of (Selector_onPointerDown cam keys hover w this)).1
  = clickSelection keys (GameObject.id (gameObject this)) (selection w).
Proof.
  unfold Selector_onPointerDown.
  destruct (Selector_getXZPlaneIntersection _ _ _) as [[] ?]; [|done].
  by destruct (_getCenter _ _).
Qed.

(** C2: with the control key held, a pointer-down on a selector toggles the
    membership of its object's id in the selection and leaves the membership
    of every other id as it was. *)
Theorem C2_control_click_toggles cam keys hover w this :
  control keys = true →
  let i := GameObject.id (gameObject this) in
  let sel' := selection (state_of (Selector_onPointerDown cam keys hover w this)).1 in
  JSSet.has sel' i = negb (JSSet.has (selection w) i)
  ∧ ∀ j, j ≠ i → (j ∈ sel' ↔ j ∈ selection w).
Proof.
  intros Hc i sel'. subst sel'. rewrite onPointerDown_selection. fold i.
  unfold clickSelection. rewrite Hc.
  destruct (JSSet.has (selection w) i) eqn:E; simpl; split.
  - apply JSSetFacts.has_false. rewrite JSSetFacts.elem_of_delete. tauto.
  - intros j Hj. rewrite JSSetFacts.elem_of_delete. tauto.
  - apply JSSetFacts.has_true, JSSetFacts.elem_of_add. by right.
  - intros j Hj. rewrite JSSetFacts.elem_of_add. tauto.
Qed.

(** C3: without the control key, a pointer-down on a selector whose object is
    not selected leaves exactly that object's id in the selection; on one
    whose object is selected it leaves the selection as it was. *)
Theorem C3_plain_click_selects cam keys hover w this :
  control keys = false →
  let i := GameObject.id (gameObject this) in
  let sel' := selection (state_of (Selector_onPointerDown cam keys hover w this)).1 in
  (i ∉ selection w → sel' = [i]) ∧ (i ∈ selection w → sel' = selection w).
Proof.
  intros Hc i sel'. subst sel'. rewrite onPointerDown_selection. fold i.
  unfold clickSelection. rewrite Hc. split; intros Hi.
  - apply JSSetFacts.has_false in Hi. by rewrite Hi.
  - apply JSSetFacts.has_true in Hi. by rewrite Hi.
Qed.
End SelectorClick.

(** ** Numbers and vectors *)

Lemma max_lower (a b : Q) : (a <= Math.max a b)%Q.
Proof. apply Q.le_max_l. Qed.

Lemma clamp_bounds (v lo hi : Q) :
  (lo <= hi)%Q → (lo <= clamp v lo hi)%Q ∧ (clamp v lo hi <= hi)%Q.
Proof.
  intros Hlh. unfold clamp, Math.min, Math.max. split.
  - apply Q.min_glb; [apply Q.le_max_r | done].
  - apply Q.le_min_r.
Qed.

(** ** Translate drags *)

Section TranslateDrag.
Context `{Host}.
Implicit Types (w : World) (this : Selector) (keys : Keys) (hover : Hover).

Lemma sumPositions_resolves w ids c s :
  sumPositions w c ids = Some s → ∀ i, i ∈ ids → is_Some (gameObjects w !! i).
Proof.
  revert c. induction ids as [|a ids IH]; intros c Hs i Hi.
  - by apply elem_of_nil in Hi.
  - simpl in Hs. unfold require in Hs.
    destruct (gameObjects w !! a) as [pa|] eqn:Ea; [|done].
    apply elem_of_cons in Hi as [->|Hi]; [by rewrite Ea | by eapply IH].
Qed.

Lemma sumPositions_total w ids c :
  (∀ i, i ∈ ids → is_Some (gameObjects w !! i)) → is_Some (sumPositions w c ids).
Proof.
  revert c. induction ids as [|a ids IH]; intros c Hall; [done|].
  simpl. unfold require. destruct (Hall a) as [pa Ea]; [left|].
  rewrite Ea. apply IH. intros i Hi. apply Hall. by right.
Qed.

Lemma getCenter_total w this :
  (∀ i, i ∈ selection w → is_Some (gameObjects w !! i)) → is_Some (_getCenter w this).
Proof.
  intros Hall. unfold _getCenter. destruct (negb _); [done|].
  destruct (sumPositions_total w (selection w) vec3.create Hall) as [s ->]. done.
Qed.

Lemma getCenter_resolves w this c :
  GameObject.id (gameObject this) ∈ selection w →
  _getCenter w this = Some c → ∀ i, i ∈ selection w → is_Some (gameObjects w !! i).
Proof.
  intros Hin Hc. unfold _getCenter in Hc.
  apply JSSetFacts.has_true in Hin. rewrite Hin in Hc. simpl in Hc.
  destruct (sumPositions _ _ _) as [s|] eqn:Es; [|done].
  by eapply sumPositions_resolves.
Qed.

Lemma editAll_lookup w old new ids e e' :
  editAll w old new e ids = Some e' →
  ∀ i, e' !! i = if decide (i ∈ ids)
                 then (λ p, vec3.add (vec3.subtract p old) new) <$> gameObjects w !! i
                 else e !! i.
Proof.
  revert e. induction ids as [|a ids IH]; intros e He i.
  - injection He as <-. by rewrite decide_False by apply not_elem_of_nil.
  - simpl in He. unfold require in He.
    destruct (gameObjects w !! a) as [pa|] eqn:Ea; [|done].
    rewrite (IH _ He i). destruct (decide (i ∈ ids)) as [Hi|Hi].
    + rewrite decide_True by (by right). done.
    + destruct (decide (i = a)) as [->|Hne].
      * rewrite decide_True by left. by rewrite lookup_insert_eq, Ea.
      * rewrite lookup_insert_ne by done.
        rewrite decide_False; [done|]. by intros [?|?]%elem_of_cons.
Qed.

Lemma editAll_total w old new ids e :
  (∀ i, i ∈ ids → is_Some (gameObjects w !! i)) →
  is_Some (editAll w old new e ids).
Proof.
  revert e. induction ids as [|a ids IH]; intros e Hall; [done|].
  simpl. unfold require. destruct (Hall a) as [pa Ea]; [left|].
  rewrite Ea. apply IH. intros i Hi. apply Hall. by right.
Qed.

(** What a drag that finds its intersection and its centre hands to
    [applyEdit]. *)
Lemma onPointerDrag_applied cam keys hover w this i2c p oldCenter :
  _intersectionToCenter this = Some i2c →
  Selector_getXZPlaneIntersection cam hover vec3.create = (true, p) →
  _getCenter w this = Some oldCenter →
  let newCenter := dragCenter keys p i2c oldCenter in
  ∃ edit,
    Selector_onPointerDrag cam keys hover w this = Applied edit
    ∧ (GameObject.id (gameObject this) ∈ selection w →
         ∀ i, edit !! i
              = if decide (i ∈ selection w)
                then (λ pos, vec3.add (vec3.subtract pos oldCenter) newCenter)
                       <$> gameObjects w !! i
                else None)
    ∧ (GameObject.id (gameObject this) ∉ selection w →
         edit = {[ GameObject.id (gameObject this) := newCenter ]}).
Proof.
  intros Hi2c Hint Hc newCenter.
  unfold Selector_onPointerDrag. rewrite Hi2c, Hint, Hc. fold newCenter.
  destruct (JSSet.has (selection w) (GameObject.id (gameObject this))) eqn:Ehas.
  - apply JSSetFacts.has_true in Ehas.
    pose proof (getCenter_resolves w this oldCenter Ehas Hc) as Hall.
    destruct (editAll_total w oldCenter newCenter (selection w) ∅ Hall) as [edit He].
    rewrite He. exists edit. split; [done|].
    pose proof (editAll_lookup w oldCenter newCenter (selection w) ∅ edit He) as Hlook.
    split; [|done]. intros _ i. rewrite Hlook. by destruct (decide _).
  - apply JSSetFacts.has_false in Ehas. eexists. split; [done|]. split; done.
Qed.
End TranslateDrag.

(** ** Translate drags on the host's cells *)

Section CellDrag.
Context `{Cells}.
Implicit Types (w : OnCells.Scene) (this : OnCells.Selector) (ids : list string).









End CellDrag.

(** On vectors of rationals the drag on cells is the drag of the embedding of
    the components. *)
Section ExactCells.
Context `{Host}.

Lemma exact_sumPositions (w : World) (ids : list string) (c : vec3.t) :
  OnCells.sumPositions (H := exactCells) (sceneOf w) c ids = sumPositions w c ids.
Proof.
  revert c. induction ids as [|a ids IH]; intros c; [done|].
  simpl. unfold OnCells.require, require. simpl.
  destruct (gameObjects w !! a); [apply IH|done].
Qed.

Lemma exact_editAll (w : World) (old new : vec3.t) (e : gmap string vec3.t)
    (ids : list string) :
  OnCells.editAll (H := exactCells) (sceneOf w) old new e ids = editAll w old new e ids.
Proof.
  revert e. induction ids as [|a ids IH]; intros e; [done|].
  simpl. unfold OnCells.require, require. simpl.
  destruct (gameObjects w !! a); [apply IH|done].
Qed.

Lemma exact_getCenter (w : World) (this : Selector) :
  OnCells._getCenter (H := exactCells) (sceneOf w) (selectorOf this) = _getCenter w this.
Proof.
  unfold OnCells._getCenter, _getCenter. simpl.
  destruct (JSSet.has _ _); simpl; [|done]. by rewrite exact_sumPositions.
Qed.

Lemma exact_onPointerDrag cam keys hover (w : World) (this : Selector) :
  OnCells.onPointerDrag (H := exactCells) (shift keys) (cam, hover)
    (sceneOf w) (selectorOf this)
  = resultOf (Selector_onPointerDrag cam keys hover w this).
Proof.
  unfold OnCells.onPointerDrag, Selector_onPointerDrag. simpl.
  destruct (_intersectionToCenter this) as [i2c|]; [|done].
  destruct (Selector_getXZPlaneIntersection cam hover vec3.create) as [[] p]; [|done].
  rewrite exact_getCenter. destruct (_getCenter w this) as [oldCenter|]; [|done].
  unfold dragCenter. destruct (JSSet.has _ _); [|done].
  rewrite exact_editAll. by destruct (editAll _ _ _ _ _).
Qed.
End ExactCells.

(** ** The plane intersection and its callers *)

Section Intersection.
Context `{Host}.

Lemma positive_spec (q : Q) : positive q = true ↔ (0 < q)%Q.
Proof.
  unfold positive. rewrite negb_true_iff. split.
  - intros Hn. apply Qnot_le_lt. intros Hle. apply Qle_bool_iff in Hle. congruence.
  - intros Hlt. destruct (Qle_bool q 0) eqn:E; [|done]. apply Qle_bool_iff in E. lra.
Qed.

(** The routine answers true, with the point of the ray at the distance, when
    the distance is a number above zero, and false, with the result as it
    was, otherwise. *)
Lemma getXZPlaneIntersection_cases this hover result :
  (∃ d, meetsXZPlane this hover d
        ∧ getXZPlaneIntersection this hover result
          = (true, Ray.getPoint (hoverRay this hover) d))
  ∨ ((∀ d, ¬ meetsXZPlane this hover d)
     ∧ getXZPlaneIntersection this hover result = (false, result)).
Proof.
  unfold meetsXZPlane, getXZPlaneIntersection, hoverRay. simpl.
  destruct (Plane_intersectRay _ _ _) as [d|] eqn:Ed.
  - destruct (positive d) eqn:Ep; simpl.
    + left. exists d. by apply positive_spec in Ep.
    + right. split; [|done]. intros d' [[= <-] Hd'%positive_spec]. congruence.
  - right. split; [|done]. by intros d' [? _].
Qed.

(** C6: the intersection routine returns true, with the point where the ray
    from the camera towards the hover meets the plane y = 0 in its result,
    exactly when they meet at a distance above zero; otherwise (NaN and a
    missing active camera included) it returns false and leaves the result
    alone.  A caller that receives false changes nothing more, except
    [Selector.onPointerDown], which forgets its stored offset; what the two
    pointer-down handlers did to the selection before the call stays. *)
Theorem C6_intersection_and_callers this hover result :
  ((∃ d, meetsXZPlane this hover d
         ∧ getXZPlaneIntersection this hover result
           = (true, Ray.getPoint (hoverRay this hover) d))
   ∨ ((∀ d, ¬ meetsXZPlane this hover d)
      ∧ getXZPlaneIntersection this hover result = (false, result)))
  ∧ Selector_getXZPlaneIntersection None hover result = (false, result)
  ∧ Selector_getXZPlaneIntersection (Some this) hover result
    = getXZPlaneIntersection this hover result
  ∧ (∀ cam keys w s r,
       Selector_getXZPlaneIntersection cam hover vec3.create = (false, r) →
       Selector_onPointerDrag cam keys hover w s = NoEdit
       ∧ Selector_onPointerDown cam keys hover w s
         = Returned
             (set_selection w
                (clickSelection keys (GameObject.id (gameObject s)) (selection w)),
              set_intersectionToCenter s None))
  ∧ (∀ keys w r,
       getXZPlaneIntersection this hover vec3.create = (false, r) →
       is_Some (_selectRegion this) →
       CameraController_onPointerDrag keys hover w this = (w, this))
  ∧ (∀ keys w r,
       getXZPlaneIntersection this hover (_selectStartPosition this) = (false, r) →
       CameraController_onPointerDown keys hover w this
       = (if button0 keys && shift keys
          then set_selection w (JSSet.clear (selection w)) else w,
          this)).
Proof.
  split; [apply getXZPlaneIntersection_cases|].
  split; [done|]. split; [done|]. split; [|split].
  - intros cam keys w s r Hr. unfold Selector_onPointerDrag, Selector_onPointerDown.
    rewrite Hr. split; [by destruct (_intersectionToCenter s)|done].
  - intros keys w r Hr [region Hregion]. unfold CameraController_onPointerDrag.
    by rewrite Hregion, Hr.
  - intros keys w r Hr. unfold CameraController_onPointerDown.
    rewrite Hr. by destruct (button0 keys && shift keys).
Qed.
End Intersection.

(** ** The camera *)

Section Camera.
Context `{Host}.
Implicit Types (w : World) (c : CameraController) (e : CameraEvent).



Lemma setProperties_bounds c t az el d :
  (-90 <= el)%Q → (el <= 90)%Q → ((1 # 2) <= d)%Q →
  orbitBounds (setProperties c t az el d).
Proof. by intros ???. Qed.

Lemma addToDistance_bounds c amount : orbitBounds c → orbitBounds (_addToDistance c amount).
Proof.
  intros (Hlo & Hhi & _). unfold _addToDistance.
  apply setProperties_bounds; [done|done|]. apply max_lower.
Qed.

Lemma cameraStep_bounds w c e :
  orbitBounds c → orbitBounds (cameraStep (w, c) e).2.
Proof.
  intros Hc. destruct e as [keys hover|keys hover| |hover delta|]; simpl.
  - unfold CameraController_onPointerDown.
    destruct (button0 keys && shift keys); [|done].
    by destruct (getXZPlaneIntersection _ _ _) as [[] ?].
  - unfold CameraController_onPointerDrag.
    destruct (_selectRegion c).
    + by destruct (getXZPlaneIntersection _ _ _) as [[] ?].
    + destruct Hc as (Hlo & Hhi & Hd).
      destruct (button0 keys).
      { destruct (clamp_bounds (elevation c + vec3.y (viewMovement hover) * 180)
                    (-90) 90) as [??]; [done|].
        simpl. by apply setProperties_bounds. }
      destruct (button1 keys); simpl.
      * by apply addToDistance_bounds.
      * by apply setProperties_bounds.
  - unfold CameraController_onPointerUp.
    destruct (_selectRegion c); [|done]. by destruct (bool_decide _).
  - by apply addToDistance_bounds.
  - by apply setProperties_bounds.
Qed.

(** C9: whatever events the camera controller receives after [awake]
    (pointer down, the orbit, middle-button, pan and marquee drags, pointer
    up, wheel, reset), its elevation stays within [-90, 90] and its distance
    stays at least 0.5. *)
Theorem C9_orbit_bounds w (es : list CameraEvent) :
  orbitBounds (cameraRun (w, awake) es).2.
Proof.
  assert (∀ s, orbitBounds s.2 → orbitBounds (cameraRun s es).2) as Hrun.
  { unfold cameraRun. induction es as [|e es IH]; intros s Hs; [done|].
    simpl. apply IH. destruct s as [w' c']. by apply cameraStep_bounds. }
  apply Hrun. by repeat split.
Qed.
End Camera.

(** ** The outline *)

Section OutlineFacts.
Implicit Types (st : Outline) (this : string) (object : Object3D).

Lemma setMeshes_lookup (m : Mesh) (ms : gmap nat Mesh) (nodes : list nat) (n : nat) :
  setMeshes m ms nodes !! n = if decide (n ∈ nodes) then Some m else ms !! n.
Proof.
  unfold setMeshes. revert ms. induction nodes as [|a nodes IH]; intros ms; cbn [foldl].
  - by rewrite decide_False by apply not_elem_of_nil.
  - rewrite IH. destruct (decide (n ∈ nodes)) as [Hn|Hn].
    + by rewrite decide_True by (by right).
    + destruct (decide (n = a)) as [->|Hne].
      * rewrite decide_True by left. by rewrite lookup_insert_eq.
      * rewrite lookup_insert_ne by done.
        rewrite decide_False; [done|]. by intros [?|?]%elem_of_cons.
Qed.

Lemma size_positive (m : gmap string Object3D) this object :
  m !! this = Some object → (0 < size m)%nat.
Proof.
  intros Hm. destruct (size m) eqn:E; [|lia].
  apply map_size_empty_inv in E. subst m. by rewrite lookup_empty in Hm.
Qed.

Lemma clearOutline_object st this : _outlineObject (_clearOutline st this) !! this = None.
Proof.
  unfold _clearOutline. destruct (_outlineObject st !! this) eqn:E; [|done].
  simpl. apply lookup_delete_eq.
Qed.

Lemma clearOutline_inv st this : outlineInv st → outlineInv (_clearOutline st this).
Proof.
  intros (Hcount & Hhook & Hrem). unfold _clearOutline.
  destruct (_outlineObject st !! this) as [object|] eqn:E; [|done].
  pose proof (size_positive _ _ _ E) as Hpos.
  assert (0 < outlineCount st)%Z as Hc by lia.
  unfold outlineInv. simpl.
  rewrite map_size_delete_Some by eauto. split; [lia|].
  case_bool_decide as Hz.
  - rewrite (Hrem Hc). simpl. split; [split; [done|lia]|lia].
  - split; [|intros _; by apply Hrem]. rewrite Hhook. lia.
Qed.

Lemma setOutline_inv st this object selected :
  outlineInv st → outlineInv (_setOutline st this object selected).
Proof.
  intros Hst. pose proof (clearOutline_inv st this Hst) as (Hcount & Hhook & Hrem).
  pose proof (clearOutline_object st this) as Hnone.
  unfold _setOutline. case_bool_decide as Hone; unfold outlineInv; simpl.
  - rewrite map_size_insert_None by done. split; [lia|]. split; [|done]. split; [lia|done].
  - rewrite map_size_insert_None by done. split; [lia|].
    assert (0 < outlineCount (_clearOutline st this))%Z as Hc by lia.
    split; [|intros _; by apply Hrem]. rewrite Hhook. lia.
Qed.

(** C10: after any sequence of [_setOutline] and [_clearOutline] calls on any
    selectors, the outline counter is the number of selectors that hold an
    outline object, and the render engine's compositing hook is installed
    exactly when the counter is positive. *)
Theorem C10_outline_counter (ops : list OutlineOp) :
  let st := foldl outlineStep initialOutline ops in
  outlineCount st = Z.of_nat (size (_outlineObject st))
  ∧ (engineOnAfterRender st = true ↔ (0 < outlineCount st)%Z).
Proof.
  assert (∀ st, outlineInv st → outlineInv (foldl outlineStep st ops)) as Hrun.
  { induction ops as [|op ops IH]; intros st Hst; [done|].
    simpl. apply IH. destruct op; [by apply setOutline_inv | by apply clearOutline_inv]. }
  assert (outlineInv initialOutline) as Hinit.
  { unfold outlineInv. simpl. split; [done|]. split; [split; [done|lia]|lia]. }
  destruct (Hrun initialOutline Hinit) as (Hcount & Hhook & _). by split.
Qed.

Lemma forced_highlighted (selected : bool) :
  highlightedWith (if selected then 4 # 5 else 2 # 5) (mkMesh true (ForceOpacity selected 0)).
Proof. split; [done|]. intros opacity. by destruct selected. Qed.

Lemma setOutline_meshes st this object selected n :
  n ∈ meshNodes object →
  meshes (_setOutline st this object selected) !! n
  = Some (mkMesh true (ForceOpacity selected 0)).
Proof.
  intros Hn. unfold _setOutline.
  case_bool_decide; simpl; by rewrite setMeshes_lookup, decide_True.
Qed.

Lemma setOutline_object st this object selected :
  _outlineObject (_setOutline st this object selected) !! this = Some object.
Proof. unfold _setOutline. case_bool_decide; simpl; apply lookup_insert_eq. Qed.

Lemma clearOutline_meshes st this old n :
  _outlineObject st !! this = Some old →
  n ∈ meshNodes old →
  meshes (_clearOutline st this) !! n = Some (mkMesh false Noop).
Proof.
  intros Hold Hn. unfold _clearOutline. rewrite Hold. simpl.
  by rewrite setMeshes_lookup, decide_True.
Qed.

End OutlineFacts.

(** ** The marquee *)

Section Marquee.
Context `{Host}.

Lemma releaseAll_selection (w : World) (last : list GameObject.t) :
  selection (releaseAll w last) = foldl JSSet.add (selection w) (GameObject.name <$> last).
Proof.
  unfold releaseAll. revert w. induction last as [|o last IH]; intros w; [done|].
  simpl. by rewrite IH.
Qed.

(** Releasing a marquee adds, for every selector hovered by the last drag,
    the name of its game object to the selection. *)
Lemma onPointerUp_adds_names (w : World) (this : CameraController) (o : GameObject.t) :
  is_Some (_selectRegion this) →
  o ∈ lastSelectors w →
  GameObject.name o ∈ selection (CameraController_onPointerUp w this).1.
Proof.
  intros [region Hregion] Ho. unfold CameraController_onPointerUp. rewrite Hregion.
  rewrite bool_decide_eq_true_2
    by (unfold JSSet.size; destruct (lastSelectors w); [by apply elem_of_nil in Ho | simpl; lia]).
  simpl. rewrite releaseAll_selection.
  assert (∀ (names : list string) (sel : list string) (x : string),
            x ∈ sel ∨ x ∈ names → x ∈ foldl JSSet.add sel names) as Hfold.
  { induction names as [|a names IH]; intros sel x; simpl.
    - intros [?|?%elem_of_nil]; done.
    - intros Hx. apply IH. rewrite JSSetFacts.elem_of_add.
      destruct Hx as [?|[->|?]%elem_of_cons]; auto. }
  apply Hfold. right. by apply list_elem_of_fmap_2.
Qed.
End Marquee.

(** C1: a marquee dragged over the crate, whose id is 7 and whose name is
    "crate", hovers the crate's selector; on release the selection holds the
    string "crate" and not the crate's id. *)
Theorem C1_marquee_selects_by_name :
  let dragged := cameraRun (H := Scenario.host) (Scenario.world, Scenario.camera)
                   (take 2 Scenario.marquee) in
  let released := cameraRun (H := Scenario.host) (Scenario.world, Scenario.camera)
                    Scenario.marquee in
  lastSelectors dragged.1 = [Scenario.crate]
  ∧ groupHovered dragged.1 !! GameObject.id Scenario.crate = Some true
  ∧ selection released.1 = [GameObject.name Scenario.crate]
  ∧ JSSet.has (selection released.1) (GameObject.id Scenario.crate) = false.
Proof. vm_compute. done. Qed.

(** ** The properties at work on the small scene *)

Lemma C2_control_click_toggles_witness :
  control Scenario.controlKeys = true
  ∧ let sel' :=
      selection (state_of (Selector_onPointerDown (H := Scenario.host) (Some Scenario.camera)
                             Scenario.controlKeys (Scenario.hoverAt 3 1)
                             Scenario.worldBoth Scenario.crateSelector)).1 in
    JSSet.has sel' "7" = negb (JSSet.has (selection Scenario.worldBoth) "7")
    ∧ ∀ j, j ≠ "7" → (j ∈ sel' ↔ j ∈ selection Scenario.worldBoth).
Proof.
  split; [reflexivity|].
  apply (C2_control_click_toggles (H := Scenario.host) (Some Scenario.camera)
           Scenario.controlKeys (Scenario.hoverAt 3 1)
           Scenario.worldBoth Scenario.crateSelector).
  reflexivity.
Defined.

Lemma C3_plain_click_selects_witness :
  control Scenario.noKeys = false
  ∧ let sel' :=
      selection (state_of (Selector_onPointerDown (H := Scenario.host) (Some Scenario.camera)
                             Scenario.noKeys (Scenario.hoverAt 3 1)
                             Scenario.world Scenario.crateSelector)).1 in
    ("7" ∉ selection Scenario.world → sel' = ["7"])
    ∧ ("7" ∈ selection Scenario.world → sel' = selection Scenario.world).
Proof.
  split; [reflexivity|].
  apply (C3_plain_click_selects (H := Scenario.host) (Some Scenario.camera)
           Scenario.noKeys (Scenario.hoverAt 3 1) Scenario.world Scenario.crateSelector).
  reflexivity.
Defined.

Lemma C6_intersection_and_callers_witness :
  Selector_getXZPlaneIntersection (H := Scenario.host) None (Scenario.hoverAt 3 1) vec3.create
  = (false, vec3.create)
  ∧ Selector_onPointerDrag (H := Scenario.host) None Scenario.noKeys (Scenario.hoverAt 3 1)
      Scenario.worldBoth Scenario.crateSelector = NoEdit.
Proof.
  destruct (C6_intersection_and_callers (H := Scenario.host) Scenario.camera
              (Scenario.hoverAt 3 1) vec3.create)
    as (_ & Hnone & _ & Hselector & _).
  split; [exact Hnone|].
  exact (proj1 (Hselector None Scenario.noKeys Scenario.worldBoth Scenario.crateSelector
                  vec3.create Hnone)).
Defined.

(** A pointer-down on a selector whose ray finds no plane (here: no active
    camera) does change the state: the stored offset is forgotten. *)
Lemma C6_callers_counterexample :
  ¬ (∀ (H : Host) cam keys hover w s r,
       Selector_getXZPlaneIntersection cam hover vec3.create = (false, r) →
       state_of (Selector_onPointerDown cam keys hover w s) = (w, s)).
Proof.
  intros Hall.
  specialize (Hall Scenario.host None Scenario.noKeys (Scenario.hoverAt 3 1)
                Scenario.worldBoth Scenario.crateSelector vec3.create eq_refl).
  apply (f_equal (λ x, _intersectionToCenter x.2)) in Hall. discriminate Hall.
Qed.

(** * Further properties of the handlers *)

(** ** Clicks *)

Section MoreClicks.
Context `{Host}.
Implicit Types (w : World) (this : Selector) (keys : Keys) (hover : Hover).

Lemma onPointerDown_gameObject cam keys hover w this :
  gameObject (state_of (Selector_onPointerDown cam keys hover w this)).2 = gameObject this.
Proof.
  unfold Selector_onPointerDown.
  destruct (Selector_getXZPlaneIntersection _ _ _) as [[] ?]; [|done].
  by destruct (_getCenter _ _).
Qed.

Lemma onPointerDown_world cam keys hover w this :
  (state_of (Selector_onPointerDown cam keys hover w this)).1
  = set_selection w (clickSelection keys (GameObject.id (gameObject this)) (selection w)).
Proof.
  unfold Selector_onPointerDown.
  destruct (Selector_getXZPlaneIntersection _ _ _) as [[] ?]; [|done].
  by destruct (_getCenter _ _).
Qed.

(** Two pointer-downs with the control key on the same selector leave every
    id's membership in the selection as it was, wherever the pointer is. *)
Theorem control_click_twice_restores cam cam' keys keys' hover hover' w this :
  control keys = true → control keys' = true →
  let s1 := state_of (Selector_onPointerDown cam keys hover w this) in
  let s2 := state_of (Selector_onPointerDown cam' keys' hover' s1.1 s1.2) in
  ∀ j, j ∈ selection s2.1 ↔ j ∈ selection w.
Proof.
  intros Hc Hc' s1 s2 j. subst s1 s2.
  rewrite !onPointerDown_selection, !onPointerDown_gameObject.
  set (i := GameObject.id (gameObject this)).
  unfold clickSelection. rewrite Hc, Hc'.
  destruct (JSSet.has (selection w) i) eqn:E.
  - assert (JSSet.has (JSSet.delete (selection w) i) i = false) as ->.
    { apply JSSetFacts.has_false. rewrite JSSetFacts.elem_of_delete. tauto. }
    rewrite JSSetFacts.elem_of_add, JSSetFacts.elem_of_delete.
    apply JSSetFacts.has_true in E. destruct (decide (j = i)) as [->|]; tauto.
  - assert (JSSet.has (JSSet.add (selection w) i) i = true) as ->.
    { apply JSSetFacts.has_true, JSSetFacts.elem_of_add. by right. }
    rewrite JSSetFacts.elem_of_delete, JSSetFacts.elem_of_add.
    apply JSSetFacts.has_false in E. split; [intros [[?|?] ?]; done|].
    intros Hj. split; [by left|]. by intros ->.
Qed.

(** A pointer-down without the control key always leaves the clicked object
    selected, and a second one changes nothing in the selection. *)
Theorem plain_click_selects_and_settles cam cam' keys keys' hover hover' w this :
  control keys = false → control keys' = false →
  let s1 := state_of (Selector_onPointerDown cam keys hover w this) in
  let s2 := state_of (Selector_onPointerDown cam' keys' hover' s1.1 s1.2) in
  GameObject.id (gameObject this) ∈ selection s1.1
  ∧ selection s2.1 = selection s1.1.
Proof.
  intros Hc Hc' s1 s2. subst s1 s2.
  rewrite !onPointerDown_selection, !onPointerDown_gameObject.
  set (i := GameObject.id (gameObject this)).
  assert (i ∈ clickSelection keys i (selection w)) as Hin.
  { unfold clickSelection. rewrite Hc.
    destruct (JSSet.has (selection w) i) eqn:E; simpl.
    - by apply JSSetFacts.has_true.
    - apply list_elem_of_singleton. done. }
  split; [done|]. unfold clickSelection at 1. rewrite Hc'.
  apply JSSetFacts.has_true in Hin. by rewrite Hin.
Qed.

End MoreClicks.

(** ** Translate drags *)

Section MoreDrags.
Context `{Host}.
Implicit Types (w : World) (this : Selector) (keys : Keys) (hover : Hover).

Lemma sumPositions_missing w ids c :
  sumPositions w c ids = None → ∃ i, i ∈ ids ∧ gameObjects w !! i = None.
Proof.
  revert c. induction ids as [|a ids IH]; intros c Hs; [done|].
  simpl in Hs. unfold require in Hs.
  destruct (gameObjects w !! a) as [pa|] eqn:Ea.
  - destruct (IH _ Hs) as (i & Hi & Hnone). exists i. split; [by right|done].
  - exists a. split; [left|done].
Qed.

(** After a pointer-down whose ray finds no plane, no drag on that selector
    applies an edit, whatever the later hovers, keys and camera. *)
Theorem missed_pointer_down_disables_drag cam keys hover w this r :
  Selector_getXZPlaneIntersection cam hover vec3.create = (false, r) →
  let s := state_of (Selector_onPointerDown cam keys hover w this) in
  ∀ cam' keys' hover', Selector_onPointerDrag cam' keys' hover' s.1 s.2 = NoEdit.
Proof.
  intros Hr s cam' keys' hover'. subst s.
  unfold Selector_onPointerDown. by rewrite Hr.
Qed.

(** A drag with a stored offset whose ray meets the plane is cut short by an
    exception exactly when the dragged object is selected and the selection
    holds an id that is not a game object's; otherwise it applies an edit. *)
Theorem drag_throws_iff_selected_id_unknown cam keys hover w this i2c p :
  _intersectionToCenter this = Some i2c →
  Selector_getXZPlaneIntersection cam hover vec3.create = (true, p) →
  (Selector_onPointerDrag cam keys hover w this = DragThrown
   ↔ GameObject.id (gameObject this) ∈ selection w
     ∧ ∃ i, i ∈ selection w ∧ gameObjects w !! i = None)
  ∧ (Selector_onPointerDrag cam keys hover w this ≠ DragThrown →
     ∃ edit, Selector_onPointerDrag cam keys hover w this = Applied edit).
Proof.
  intros Hi2c Hint.
  destruct (_getCenter w this) as [oldCenter|] eqn:Hc.
  - destruct (onPointerDrag_applied cam keys hover w this i2c p oldCenter Hi2c Hint Hc)
      as (edit & Hedit & _).
    rewrite Hedit. split; [|by eauto]. split; [done|].
    intros (Hin & i & Hi & Hnone).
    destruct (getCenter_resolves w this oldCenter Hin Hc i Hi) as [? Hsome]. congruence.
  - assert (Selector_onPointerDrag cam keys hover w this = DragThrown) as ->.
    { unfold Selector_onPointerDrag. by rewrite Hi2c, Hint, Hc. }
    split; [|done]. split; [intros _|done].
    unfold _getCenter in Hc.
    destruct (JSSet.has (selection w) (GameObject.id (gameObject this))) eqn:Ehas; [|done].
    simpl in Hc. split; [by apply JSSetFacts.has_true|].
    destruct (sumPositions _ _ _) eqn:Es; [done|]. by eapply sumPositions_missing.
Qed.
End MoreDrags.

(** ** The camera's wheel *)

Section MoreCamera.
Context `{Host}.
Implicit Types (w : World) (c : CameraController).



End MoreCamera.

(** ** The marquee's bookkeeping *)

Section MoreMarquee.
Context `{Host}.
Implicit Types (w : World) (c : CameraController) (o : GameObject.t) (i : string).

Lemma foldl_add_elem {A : Type} `{EqDecision A} (xs s : list A) (x : A) :
  x ∈ foldl JSSet.add s xs ↔ x ∈ s ∨ x ∈ xs.
Proof.
  revert s. induction xs as [|a xs IH]; intros s; simpl.
  - rewrite elem_of_nil. tauto.
  - rewrite IH, JSSetFacts.elem_of_add, elem_of_cons. tauto.
Qed.

Lemma foldl_add_NoDup {A : Type} `{EqDecision A} (xs s : list A) :
  NoDup s → NoDup (foldl JSSet.add s xs).
Proof.
  revert s. induction xs as [|a xs IH]; intros s Hs; [done|].
  simpl. by apply IH, JSSetFacts.add_NoDup.
Qed.

Lemma hoverAll_true (gh : gmap string bool) (ts : list GameObject.t) i :
  hoverAll gh ts !! i = Some true
  ↔ (∃ o, o ∈ ts ∧ GameObject.id o = i) ∨ gh !! i = Some true.
Proof.
  unfold hoverAll. revert gh. induction ts as [|a ts IH]; intros gh; cbn [foldl].
  - split; [by right|]. intros [(o & Ho & _)|?]; [by apply elem_of_nil in Ho|done].
  - rewrite IH. destruct (decide (GameObject.id a = i)) as [Ha|Ha].
    + rewrite Ha, lookup_insert_eq. split; [intros _|by auto].
      left. exists a. split; [left|done].
    + rewrite lookup_insert_ne by done. split.
      * intros [(o & Ho & Hi)|?]; [|by right]. left. exists o. split; [by right|done].
      * intros [(o & Ho & Hi)|?]; [|by right].
        apply elem_of_cons in Ho as [->|Ho]; [done|]. left. by exists o.
Qed.

Lemma unhoverMissing_true (sel last : list GameObject.t) (gh : gmap string bool) i :
  unhoverMissing sel gh last !! i = Some true
  ↔ gh !! i = Some true ∧ ∀ o, o ∈ last → GameObject.id o = i → o ∈ sel.
Proof.
  unfold unhoverMissing. revert gh. induction last as [|a last IH]; intros gh; cbn [foldl].
  - split; [intros ?; split; [done|]|by intros [? _]].
    intros o Ho. by apply elem_of_nil in Ho.
  - rewrite IH. destruct (JSSet.has sel a) eqn:Ea.
    + apply JSSetFacts.has_true in Ea. split; intros [Hgh Hall]; (split; [done|]).
      * intros o [->|Ho]%elem_of_cons Hi; [done|by apply Hall].
      * intros o Ho. apply Hall. by right.
    + apply JSSetFacts.has_false in Ea.
      destruct (decide (GameObject.id a = i)) as [Ha|Ha].
      * rewrite Ha, lookup_insert_eq. split; [by intros [? _]|].
        intros [_ Hall]. destruct Ea. apply Hall; [left|done].
      * rewrite lookup_insert_ne by done. split; intros [Hgh Hall]; (split; [done|]).
        -- intros o [->|Ho]%elem_of_cons Hi; [done|by apply Hall].
        -- intros o Ho. apply Hall. by right.
Qed.

Lemma releaseAll_frame w (last : list GameObject.t) :
  gameObjects (releaseAll w last) = gameObjects w
  ∧ selectors (releaseAll w last) = selectors w
  ∧ lastSelectors (releaseAll w last) = lastSelectors w.
Proof.
  unfold releaseAll. revert w. induction last as [|a last IH]; intros w; [done|].
  cbn [foldl]. destruct (IH (mkWorld (JSSet.add (selection w) (GameObject.name a))
                               (gameObjects w)
                               (<[GameObject.id a := false]> (groupHovered w))
                               (selectors w) (lastSelectors w))) as (-> & -> & ->).
  done.
Qed.

Lemma releaseAll_hovered w (last : list GameObject.t) i (b : bool) :
  groupHovered (releaseAll w last) !! i = Some b
  ↔ (b = false ∧ ∃ o, o ∈ last ∧ GameObject.id o = i)
    ∨ ((∀ o, o ∈ last → GameObject.id o ≠ i) ∧ groupHovered w !! i = Some b).
Proof.
  unfold releaseAll. revert w. induction last as [|a last IH]; intros w; cbn [foldl].
  - split; [intros ?; right; split; [|done]|].
    + intros o Ho. by apply elem_of_nil in Ho.
    + intros [(_ & o & Ho & _)|[_ ?]]; [by apply elem_of_nil in Ho|done].
  - rewrite IH. cbn [groupHovered]. split.
    + intros [(-> & o & Ho & Hi)|[Hall Hlook]].
      * left. split; [done|]. exists o. split; [by right|done].
      * destruct (decide (GameObject.id a = i)) as [Ha|Ha].
        -- rewrite Ha, lookup_insert_eq in Hlook. injection Hlook as <-.
           left. split; [done|]. exists a. split; [left|done].
        -- rewrite lookup_insert_ne in Hlook by done. right. split; [|done].
           intros o [->|Ho]%elem_of_cons; [done|by apply Hall].
    + intros [(-> & o & Ho & Hi)|[Hall Hlook]].
      * destruct (decide (i ∈ GameObject.id <$> last)) as [Hex|Hnex].
        { left. split; [done|].
          apply list_elem_of_fmap in Hex as (o' & -> & Ho'). by exists o'. }
        assert (∀ o', o' ∈ last → GameObject.id o' ≠ i) as Hnone.
        { intros o' Ho' Hi'. apply Hnex. rewrite <- Hi'. by apply list_elem_of_fmap_2. }
        right. apply elem_of_cons in Ho as [->|Ho]; [|by destruct (Hnone o Ho)].
        split; [done|]. by rewrite Hi, lookup_insert_eq.
      * right. split; [intros o Ho; apply Hall; by right|].
        rewrite lookup_insert_ne; [done|]. apply Hall. left.
Qed.
End MoreMarquee.

Section MarqueeGestures.
Context `{Host}.
Implicit Types (w : World) (c : CameraController) (o : GameObject.t) (i : string).

Lemma marquee_drag_world keys hover w c region p :
  _selectRegion c = Some region →
  getXZPlaneIntersection c hover vec3.create = (true, p) →
  let ts := overlapBounds (marqueeBounds (_selectStartPosition c) p) in
  let sel := foldl JSSet.add (selectors w) ts in
  let s := CameraController_onPointerDrag keys hover w c in
  s.1 = set_marquee w (unhoverMissing sel (hoverAll (groupHovered w) ts) (lastSelectors w))
          [] sel
  ∧ is_Some (_selectRegion s.2)
  ∧ _selectStartPosition s.2 = _selectStartPosition c
  ∧ pose s.2 = pose c.
Proof.
  intros Hregion Hp ts sel s. subst s. unfold CameraController_onPointerDrag.
  rewrite Hregion, Hp. simpl. by split_and!.
Qed.

Lemma onPointerDrag_lastSelectors keys hover w c region p :
  _selectRegion c = Some region →
  getXZPlaneIntersection c hover vec3.create = (true, p) →
  selectors w = [] →
  let s := CameraController_onPointerDrag keys hover w c in
  lastSelectors s.1
  = foldl JSSet.add [] (overlapBounds (marqueeBounds (_selectStartPosition c) p))
  ∧ selection s.1 = selection w.
Proof.
  intros Hregion Hp Hsel s.
  destruct (marquee_drag_world keys hover w c region p Hregion Hp) as (Hw & _).
  subst s. by rewrite Hw, Hsel.
Qed.

Lemma onPointerUp_selection w c :
  is_Some (_selectRegion c) →
  ∀ x, x ∈ selection (CameraController_onPointerUp w c).1
       ↔ x ∈ selection w ∨ ∃ o, o ∈ lastSelectors w ∧ GameObject.name o = x.
Proof.
  intros [region Hregion] x. unfold CameraController_onPointerUp.
  rewrite Hregion. case_bool_decide as Hsize; simpl.
  - rewrite releaseAll_selection, foldl_add_elem, list_elem_of_fmap.
    split; (intros [?|(o & ? & ?)]; [by left|right; by exists o]).
  - unfold JSSet.size in Hsize. destruct (lastSelectors w) as [|a l]; [|simpl in Hsize; lia].
    split; [by left|]. intros [?|(o & Ho & _)]; [done|]. by apply elem_of_nil in Ho.
Qed.

Lemma onPointerUp_clears w c :
  is_Some (_selectRegion c) →
  let s := CameraController_onPointerUp w c in
  lastSelectors s.1 = [] ∧ _selectRegion s.2 = None ∧ pose s.2 = pose c.
Proof.
  intros [region Hregion] s. subst s. unfold CameraController_onPointerUp.
  rewrite Hregion. case_bool_decide as Hsize; simpl; [done|].
  unfold JSSet.size in Hsize. by destruct (lastSelectors w); [|simpl in Hsize; lia].
Qed.

(** A marquee drag whose ray meets the plane leaves in [lastSelectors] exactly
    the objects whose bounds overlap the region between the start position and
    the intersection, each once, empties [selectors] again and leaves the
    selection alone. *)
Theorem marquee_drag_tracks_overlap keys hover w c region p :
  _selectRegion c = Some region →
  getXZPlaneIntersection c hover vec3.create = (true, p) →
  selectors w = [] →
  let s := CameraController_onPointerDrag keys hover w c in
  (∀ o, o ∈ lastSelectors s.1
        ↔ o ∈ overlapBounds (marqueeBounds (_selectStartPosition c) p))
  ∧ NoDup (lastSelectors s.1)
  ∧ selectors s.1 = []
  ∧ selection s.1 = selection w.
Proof.
  intros Hregion Hp Hsel s.
  destruct (onPointerDrag_lastSelectors keys hover w c region p Hregion Hp Hsel)
    as (Hlast & Hselection).
  destruct (marquee_drag_world keys hover w c region p Hregion Hp) as (Hw & _).
  fold s in Hlast, Hselection, Hw. split_and!; [| | |done].
  - intros o. rewrite Hlast, foldl_add_elem, elem_of_nil. tauto.
  - rewrite Hlast. apply foldl_add_NoDup. apply NoDup_nil. done.
  - by rewrite Hw.
Qed.

(** Releasing the pointer while a marquee exists removes the region, adds to
    the selection the names of the game objects of [lastSelectors] and nothing
    else, empties [lastSelectors] and ends the group hover of its selectors. *)
Theorem marquee_release w c :
  is_Some (_selectRegion c) →
  let s := CameraController_onPointerUp w c in
  (∀ x, x ∈ selection s.1
        ↔ x ∈ selection w ∨ ∃ o, o ∈ lastSelectors w ∧ GameObject.name o = x)
  ∧ lastSelectors s.1 = []
  ∧ _selectRegion s.2 = None
  ∧ pose s.2 = pose c
  ∧ (∀ o, o ∈ lastSelectors w → groupHovered s.1 !! GameObject.id o = Some false).
Proof.
  intros Hregion s.
  destruct (onPointerUp_clears w c Hregion) as (Hlast & Hnone & Hpose).
  split_and!; [by apply onPointerUp_selection|done|done|done|].
  intros o Ho. subst s. destruct Hregion as [region Hregion].
  unfold CameraController_onPointerUp. rewrite Hregion.
  rewrite bool_decide_eq_true_2
    by (unfold JSSet.size; destruct (lastSelectors w); [by apply elem_of_nil in Ho|simpl; lia]).
  simpl. apply releaseAll_hovered. left. split; [done|]. by exists o.
Qed.

(** A whole marquee gesture (a pointer-down with shift and the first button
    whose ray meets the plane, a drag whose ray meets it, a pointer-up) leaves
    in the selection exactly the names of the game objects whose bounds overlap
    the region between the two intersections. *)
Theorem marquee_gesture_selects_names keys keys' h0 h1 w c start p :
  button0 keys = true → shift keys = true →
  getXZPlaneIntersection c h0 (_selectStartPosition c) = (true, start) →
  getXZPlaneIntersection c h1 vec3.create = (true, p) →
  selectors w = [] →
  let s := cameraRun (w, c) [PointerDown keys h0; PointerDrag keys' h1; PointerUp] in
  (∀ x, x ∈ selection s.1
        ↔ ∃ o, o ∈ overlapBounds (marqueeBounds start p) ∧ GameObject.name o = x)
  ∧ lastSelectors s.1 = []
  ∧ _selectRegion s.2 = None.
Proof.
  intros Hb Hs Hstart Hp Hsel s. subst s. unfold cameraRun. cbn [foldl cameraStep fst snd].
  set (w1 := set_selection w (JSSet.clear (selection w))).
  set (c1 := setSelect c
               (Some (mkRegion start (vec3.fromValues SMALL_SCALE 1 SMALL_SCALE))) start).
  assert (CameraController_onPointerDown keys h0 w c = (w1, c1)) as ->.
  { unfold CameraController_onPointerDown. by rewrite Hb, Hs, Hstart. }
  cbn [fst snd].
  assert (getXZPlaneIntersection c1 h1 vec3.create = (true, p)) as Hp1 by exact Hp.
  assert (selectors w1 = []) as Hsel1 by exact Hsel.
  destruct (marquee_drag_world keys' h1 w1 c1 _ p eq_refl Hp1) as (Hw2 & Hr2 & _).
  destruct (onPointerDrag_lastSelectors keys' h1 w1 c1 _ p eq_refl Hp1 Hsel1)
    as (Hlast & Hselection).
  set (s2 := CameraController_onPointerDrag keys' h1 w1 c1) in *.
  pose proof (onPointerUp_selection s2.1 s2.2 Hr2) as Hsel3.
  destruct (onPointerUp_clears s2.1 s2.2 Hr2) as (Hlast3 & Hregion3 & _).
  split_and!; [|done|done].
  intros x. rewrite Hsel3, Hselection, Hlast. split.
  - intros [Hx|(o & Ho & Hn)]; [by apply elem_of_nil in Hx|].
    exists o. split; [|done]. apply foldl_add_elem in Ho as [Ho|Ho]; [|done].
    by apply elem_of_nil in Ho.
  - intros (o & Ho & Hn). right. exists o. split; [|done].
    apply foldl_add_elem. by right.
Qed.

(** While a marquee exists, pointer drags never turn, zoom or move the camera:
    whatever the buttons and the movements, its azimuth, elevation and distance
    and the position and rotation of its transform stay as they are, the region
    stays and the selection is not touched. *)
Theorem marquee_drags_keep_camera (drags : list (Keys * Hover)) w c :
  is_Some (_selectRegion c) →
  let s := cameraRun (w, c) ((λ kh, PointerDrag kh.1 kh.2) <$> drags) in
  azimuth s.2 = azimuth c ∧ elevation s.2 = elevation c ∧ distance s.2 = distance c
  ∧ position s.2 = position c ∧ rotation s.2 = rotation c
  ∧ is_Some (_selectRegion s.2) ∧ selection s.1 = selection w.
Proof.
  revert w c. induction drags as [|[keys hover] drags IH]; intros w c Hregion s; [done|].
  subst s. rewrite fmap_cons. unfold cameraRun. cbn [foldl cameraStep fst snd].
  assert (pose (CameraController_onPointerDrag keys hover w c).2 = pose c
          ∧ is_Some (_selectRegion (CameraController_onPointerDrag keys hover w c).2)
          ∧ selection (CameraController_onPointerDrag keys hover w c).1 = selection w)
    as (Hpose & Hregion' & Hselection).
  { destruct Hregion as [region Hregion].
    destruct (getXZPlaneIntersection c hover vec3.create) as [[] p] eqn:Hp.
    - destruct (marquee_drag_world keys hover w c region p Hregion Hp) as (Hw & ? & _ & ?).
      split_and!; [done|done|]. by rewrite Hw.
    - unfold CameraController_onPointerDrag. rewrite Hregion, Hp. by split_and!. }
  destruct (CameraController_onPointerDrag keys hover w c) as [w' c'].
  destruct (IH w' c' Hregion') as (Haz & Hel & Hd & Hpos & Hrot & ? & Hselection').
  unfold cameraRun, pose in *. simpl in *. injection Hpose as _ Haz' Hel' Hd' Hpos' Hrot'.
  split_and!; [congruence|congruence|congruence|congruence|congruence|done|congruence].
Qed.
End MarqueeGestures.

Section MarqueeInvariant.
Context `{Host}.
Implicit Types (w : World) (c : CameraController) (o : GameObject.t) (i : string).

Lemma marqueeInv_camera w c c' :
  _selectRegion c' = _selectRegion c ∨ is_Some (_selectRegion c') →
  marqueeInv (w, c) → marqueeInv (w, c').
Proof.
  intros Hregion (Hsel & Hlast & Hprov & Hflags). split_and!; [done| |done|done].
  intros Hne. simpl in *. destruct Hregion as [->|?]; [by apply Hlast|done].
Qed.

Lemma marqueeInv_selection w c sel : marqueeInv (w, c) → marqueeInv (set_selection w sel, c).
Proof. by intros (? & ? & ? & ?). Qed.

Lemma onPointerDown_marqueeInv keys hover w c :
  marqueeInv (w, c) → marqueeInv (CameraController_onPointerDown keys hover w c).
Proof.
  intros Hinv. unfold CameraController_onPointerDown.
  destruct (button0 keys && shift keys); [|done].
  destruct (getXZPlaneIntersection _ _ _) as [[] start].
  - apply (marqueeInv_camera _ c); [right; by eexists|]. by apply marqueeInv_selection.
  - by apply marqueeInv_selection.
Qed.

Lemma onPointerDrag_marqueeInv keys hover w c :
  uniqueIds → marqueeInv (w, c) → marqueeInv (CameraController_onPointerDrag keys hover w c).
Proof.
  intros Huniq Hinv. destruct (_selectRegion c) as [region|] eqn:Hregion.
  - destruct (getXZPlaneIntersection c hover vec3.create) as [[] p] eqn:Hp.
    + destruct (marquee_drag_world keys hover w c region p Hregion Hp) as (Hw & Hr & _).
      destruct Hinv as (Hsel & _ & Hprov & Hflags). simpl in *.
      destruct (CameraController_onPointerDrag keys hover w c) as [w' c'].
      simpl in *. subst w'. rewrite Hsel.
      set (ts := overlapBounds (marqueeBounds (_selectStartPosition c) p)).
      assert (∀ o, o ∈ foldl JSSet.add [] ts ↔ o ∈ ts) as Hmem.
      { intros o. rewrite foldl_add_elem, elem_of_nil. tauto. }
      split_and!; simpl; [done|done| |].
      * intros o Ho%Hmem. by eexists.
      * intros i. rewrite unhoverMissing_true, hoverAll_true. split.
        -- intros [[(o & Ho & Hi)|Hold] Hall].
           ++ exists o. split; [by apply Hmem|done].
           ++ apply Hflags in Hold as (o & Ho & Hi). exists o. split; [by apply Hall|done].
        -- intros (o & Ho%Hmem & Hi). split; [left; by exists o|].
           intros o' Ho' Hi'. destruct (Hprov o' Ho') as [b Hb].
           apply Hmem. rewrite (Huniq b _ o' o Hb Ho); [done|congruence].
    + unfold CameraController_onPointerDrag. by rewrite Hregion, Hp.
  - unfold CameraController_onPointerDrag. rewrite Hregion.
    destruct (button0 keys); [|destruct (button1 keys)];
      (apply (marqueeInv_camera _ c); [left; simpl; by rewrite Hregion|done]).
Qed.

Lemma onPointerUp_marqueeInv w c :
  marqueeInv (w, c) → marqueeInv (CameraController_onPointerUp w c).
Proof.
  intros Hinv. unfold CameraController_onPointerUp.
  destruct (_selectRegion c) as [region|] eqn:Hregion; [|done].
  destruct Hinv as (Hsel & Hlast & Hprov & Hflags). simpl in *.
  case_bool_decide as Hsize.
  - destruct (releaseAll_frame w (lastSelectors w)) as (_ & Hsel' & _).
    split_and!; simpl; [by rewrite Hsel'|done| |].
    + intros o Ho. by apply elem_of_nil in Ho.
    + intros i. split.
      * intros [[? _]|[Hnone Htrue]]%releaseAll_hovered; [done|].
        apply Hflags in Htrue as (o & Ho & Hi). by destruct (Hnone o Ho).
      * intros (o & Ho & _). by apply elem_of_nil in Ho.
  - assert (lastSelectors w = []) as Hempty.
    { unfold JSSet.size in Hsize. destruct (lastSelectors w); [done|simpl in Hsize; lia]. }
    split_and!; simpl; [done| |done|done]. by rewrite Hempty.
Qed.

Lemma cameraStep_marqueeInv (s : World * CameraController) (e : CameraEvent) :
  uniqueIds → marqueeInv s → marqueeInv (cameraStep s e).
Proof.
  intros Huniq Hinv. destruct s as [w c].
  destruct e as [keys hover|keys hover| |hover delta|]; simpl.
  - by apply onPointerDown_marqueeInv.
  - by apply onPointerDrag_marqueeInv.
  - by apply onPointerUp_marqueeInv.
  - apply (marqueeInv_camera _ c); [by left|done].
  - apply (marqueeInv_camera _ c); [by left|done].
Qed.

(** With unique ids, after any events on the camera controller the selectors
    whose [groupHovered] is true are exactly those of [lastSelectors], the
    objects under the marquee's last region, and [selectors] is empty: no
    selector stays group-hovered once the marquee has left it or was released. *)
Theorem group_hover_tracks_marquee w c (es : list CameraEvent) :
  uniqueIds →
  selectors w = [] → lastSelectors w = [] →
  (∀ i, groupHovered w !! i ≠ Some true) →
  let s := cameraRun (w, c) es in
  selectors s.1 = []
  ∧ (∀ i, groupHovered s.1 !! i = Some true
          ↔ ∃ o, o ∈ lastSelectors s.1 ∧ GameObject.id o = i)
  ∧ (lastSelectors s.1 ≠ [] → is_Some (_selectRegion s.2)).
Proof.
  intros Huniq Hsel Hlast Hflags s.
  assert (∀ s0, marqueeInv s0 → marqueeInv (cameraRun s0 es)) as Hrun.
  { unfold cameraRun. induction es as [|e es IH]; intros s0 Hs0; [done|].
    simpl. by apply IH, cameraStep_marqueeInv. }
  destruct (Hrun (w, c)) as (? & ? & _ & ?); [|by split_and!].
  split_and!; simpl; [done|by rewrite Hlast| |].
  - intros o Ho. rewrite Hlast in Ho. by apply elem_of_nil in Ho.
  - intros i. split; [by intros ?%Hflags|].
    intros (o & Ho & _). rewrite Hlast in Ho. by apply elem_of_nil in Ho.
Qed.
End MarqueeInvariant.

(** ** The outline's bookkeeping *)

Section MoreOutline.
Implicit Types (st : Outline) (this other : string) (object : Object3D).

Lemma outline_eq st st' :
  outlineCount st = outlineCount st' → outlineRemover st = outlineRemover st' →
  renderTarget st = renderTarget st' → engineOnAfterRender st = engineOnAfterRender st' →
  meshes st = meshes st' → _outlineObject st = _outlineObject st' → st = st'.
Proof. destruct st, st'. simpl. by intros -> -> -> -> -> ->. Qed.

Lemma reachable_outlineInv (ops : list OutlineOp) :
  outlineInv (foldl outlineStep initialOutline ops).
Proof.
  assert (∀ st, outlineInv st → outlineInv (foldl outlineStep st ops)) as Hrun.
  { induction ops as [|op ops IH]; intros st Hst; [done|].
    simpl. apply IH. destruct op; [by apply setOutline_inv | by apply clearOutline_inv]. }
  apply Hrun. unfold outlineInv. simpl. split; [done|]. split; [split; [done|lia]|lia].
Qed.

Lemma clearOutline_none st this : _outlineObject st !! this = None → _clearOutline st this = st.
Proof. intros Hnone. unfold _clearOutline. by rewrite Hnone. Qed.

Lemma clearOutline_idem st this :
  _clearOutline (_clearOutline st this) this = _clearOutline st this.
Proof. apply clearOutline_none, clearOutline_object. Qed.

Lemma clearOutline_other st this other :
  other ≠ this → _outlineObject (_clearOutline st this) !! other = _outlineObject st !! other.
Proof.
  intros Hne. unfold _clearOutline. destruct (_outlineObject st !! this); [|done].
  simpl. by rewrite lookup_delete_ne.
Qed.

Lemma setOutline_other st this other object selected :
  other ≠ this →
  _outlineObject (_setOutline st this object selected) !! other = _outlineObject st !! other.
Proof.
  intros Hne. unfold _setOutline.
  case_bool_decide; simpl; rewrite lookup_insert_ne by done; by apply clearOutline_other.
Qed.

Lemma clearOutline_meshes_frame st this n :
  (∀ old, _outlineObject st !! this = Some old → n ∉ meshNodes old) →
  meshes (_clearOutline st this) !! n = meshes st !! n.
Proof.
  intros Hn. unfold _clearOutline. destruct (_outlineObject st !! this) as [old|]; [|done].
  simpl. rewrite setMeshes_lookup, decide_False; [done|by apply Hn].
Qed.

Lemma setOutline_meshes_frame st this object selected n :
  (∀ old, _outlineObject st !! this = Some old → n ∉ meshNodes old) →
  n ∉ meshNodes object →
  meshes (_setOutline st this object selected) !! n = meshes st !! n.
Proof.
  intros Hold Hn. unfold _setOutline.
  case_bool_decide; simpl; rewrite setMeshes_lookup, decide_False by done;
    by apply clearOutline_meshes_frame.
Qed.

(** The reactive update of one selector leaves the outline object of every
    other selector alone, and touches no mesh outside the object it outlined
    before and the object it outlines now. *)
Theorem outline_update_frame st this hoverable (groupHovered selected : bool) :
  let st' := Selector_onValue st this hoverable groupHovered selected in
  (∀ other, other ≠ this → _outlineObject st' !! other = _outlineObject st !! other)
  ∧ (∀ n, (∀ old, _outlineObject st !! this = Some old → n ∉ meshNodes old) →
          (∀ object, outlined hoverable groupHovered selected = Some object →
                     n ∉ meshNodes object) →
          meshes st' !! n = meshes st !! n).
Proof.
  intros st'. subst st'. unfold Selector_onValue, outlined.
  assert (∀ hovers : nat, negb (hovers =? 0) = bool_decide (0 < hovers)%nat) as Hnz.
  { intros [|k]; [done|]. cbn [negb Nat.eqb]. symmetry. apply bool_decide_eq_true_2. lia. }
  destruct hoverable as [[hovers [object|]]|]; simpl.
  - rewrite Hnz. destruct (bool_decide (0 < hovers)%nat || groupHovered || selected).
    + split; [intros other Hne; by apply setOutline_other|].
      intros n Hold Hnew. apply setOutline_meshes_frame; [done|by apply Hnew].
    + split; [intros other Hne; by apply clearOutline_other|].
      intros n Hold _. by apply clearOutline_meshes_frame.
  - split; [intros other Hne; by apply clearOutline_other|].
    intros n Hold _. by apply clearOutline_meshes_frame.
  - split; [intros other Hne; by apply clearOutline_other|].
    intros n Hold _. by apply clearOutline_meshes_frame.
Qed.

Lemma setOutline_idem st this object selected :
  _setOutline (_setOutline st this object selected) this object selected
  = _setOutline st this object selected.
Proof.
  pose proof (clearOutline_object st this) as Hnone.
  set (st1 := _setOutline st this object selected).
  assert (_outlineObject st1 !! this = Some object) as Hsome by apply setOutline_object.
  assert (outlineCount st1 = (outlineCount (_clearOutline st this) + 1)%Z
          ∧ (outlineCount st1 = 1%Z →
             outlineRemover st1 = RemoveHook ∧ renderTarget st1 = true
             ∧ engineOnAfterRender st1 = true)
          ∧ meshes st1
            = setMeshes (mkMesh true (ForceOpacity selected 0))
                (meshes (_clearOutline st this)) (meshNodes object)
          ∧ _outlineObject st1 = <[this := object]> (_outlineObject (_clearOutline st this)))
    as (Hcount & Hone & Hmeshes & Hmap).
  { subst st1. unfold _setOutline. case_bool_decide as Hc; simpl; split_and!; try done;
      intros ?; lia. }
  assert (_clearOutline st1 this
          = mkOutline (outlineCount st1 - 1) (outlineRemover st1) (renderTarget st1)
              (if bool_decide ((outlineCount st1 - 1)%Z = 0%Z)
               then runRemover (outlineRemover st1) (engineOnAfterRender st1)
               else engineOnAfterRender st1)
              (setMeshes (mkMesh false Noop) (meshes st1) (meshNodes object))
              (delete this (_outlineObject st1))) as Hclear.
  { unfold _clearOutline. by rewrite Hsome. }
  unfold _setOutline. rewrite Hclear. simpl.
  assert ((outlineCount st1 - 1 + 1)%Z = outlineCount st1) as -> by lia.
  assert (setMeshes (mkMesh true (ForceOpacity selected 0))
            (setMeshes (mkMesh false Noop) (meshes st1) (meshNodes object))
            (meshNodes object) = meshes st1) as ->.
  { apply map_eq. intros n. rewrite !setMeshes_lookup, Hmeshes, setMeshes_lookup.
    by destruct (decide (n ∈ meshNodes object)). }
  assert (<[this := object]> (delete this (_outlineObject st1)) = _outlineObject st1) as ->.
  { by rewrite insert_delete_eq, Hmap, insert_insert_eq. }
  destruct (decide (outlineCount st1 = 1%Z)) as [Hc1|Hc1].
  - destruct (Hone Hc1) as (Hr & Ht & Hh).
    rewrite !bool_decide_eq_true_2 by lia. by apply outline_eq.
  - rewrite !bool_decide_eq_false_2 by lia. by apply outline_eq.
Qed.

(** Delivering the same reactive value to a selector a second time changes
    nothing: no counter drifts, no hook is lost, no mesh changes. *)
Theorem outline_update_idempotent st this hoverable (groupHovered selected : bool) :
  let st' := Selector_onValue st this hoverable groupHovered selected in
  Selector_onValue st' this hoverable groupHovered selected = st'.
Proof.
  intros st'. subst st'. unfold Selector_onValue.
  destruct hoverable as [[hovers [object|]]|]; simpl.
  - destruct (negb (hovers =? 0) || groupHovered || selected).
    + apply setOutline_idem.
    + apply clearOutline_idem.
  - apply clearOutline_idem.
  - apply clearOutline_idem.
Qed.

Lemma reachable_hook_needs (ops : list OutlineOp) :
  let st := foldl outlineStep initialOutline ops in
  engineOnAfterRender st = true → renderTarget st = true.
Proof.
  assert (∀ st, (engineOnAfterRender st = true → renderTarget st = true) →
                engineOnAfterRender (foldl outlineStep st ops) = true →
                renderTarget (foldl outlineStep st ops) = true) as Hrun.
  { induction ops as [|op ops IH]; intros st Hst; [done|].
    simpl. apply IH.
    assert (∀ this, engineOnAfterRender (_clearOutline st this) = true →
                    renderTarget (_clearOutline st this) = true) as Hclear.
    { intros this. unfold _clearOutline. destruct (_outlineObject st !! this); [|done].
      simpl. case_bool_decide; [|done]. by destruct (outlineRemover st). }
    destruct op as [this object selected|this]; simpl; [|by apply Hclear].
    unfold _setOutline. case_bool_decide; simpl; [done|by apply Hclear]. }
  by apply Hrun.
Qed.

(** Whenever the compositing hook is installed, the render target it draws
    into has been created and the remover that will take the hook off is the
    real one: the hook never runs without its target and can always be removed. *)
Theorem installed_hook_has_target_and_remover (ops : list OutlineOp) :
  let st := foldl outlineStep initialOutline ops in
  engineOnAfterRender st = true →
  renderTarget st = true ∧ outlineRemover st = RemoveHook.
Proof.
  intros st Hhook. split; [by apply reachable_hook_needs|].
  destruct (reachable_outlineInv ops) as (_ & Hiff & Hremover).
  by apply Hremover, Hiff.
Qed.

(** Outlining an object for a selector that holds none and clearing it again
    puts the counter, the hook and the selectors' outline objects back where
    they were; in particular the hook installed for the first outline is
    removed with the last one. *)
Theorem set_then_clear_restores (ops : list OutlineOp) this object (selected : bool) :
  let st := foldl outlineStep initialOutline ops in
  _outlineObject st !! this = None →
  outlineBookkeeping (_clearOutline (_setOutline st this object selected) this)
  = outlineBookkeeping st.
Proof.
  intros st Hnone.
  destruct (reachable_outlineInv ops) as (Hcount & Hiff & Hremover). fold st in Hcount, Hiff, Hremover.
  unfold outlineBookkeeping, _setOutline. rewrite (clearOutline_none st this Hnone).
  destruct (decide (outlineCount st = 0%Z)) as [Hz|Hz].
  - rewrite bool_decide_eq_true_2 by lia. unfold _clearOutline. simpl.
    rewrite lookup_insert_eq. simpl. rewrite bool_decide_eq_true_2 by lia. simpl.
    rewrite delete_insert_eq, (delete_id _ _ Hnone).
    destruct (engineOnAfterRender st) eqn:Eh; [|repeat f_equal; lia].
    destruct Hiff as [Hpos _]. specialize (Hpos eq_refl). lia.
  - rewrite bool_decide_eq_false_2 by lia. unfold _clearOutline. simpl.
    rewrite lookup_insert_eq. simpl. rewrite bool_decide_eq_false_2 by lia.
    rewrite delete_insert_eq, (delete_id _ _ Hnone). repeat f_equal; lia.
Qed.
End MoreOutline.

(** ** The outline across selectors *)

Section OutlineTracking.
Implicit Types (st : Outline) (d : Delivery) (ds : list Delivery) (s : string).

Lemma latest_snoc s ds d :
  latest s (ds ++ [d]) = if decide (receiver d = s) then Some d else latest s ds.
Proof.
  unfold latest. rewrite filter_app, filter_cons, filter_nil.
  destruct (decide (receiver d = s)); [apply last_snoc|by rewrite app_nil_r].
Qed.

Lemma latest_elem s ds d : latest s ds = Some d → d ∈ ds ∧ receiver d = s.
Proof.
  unfold latest. intros Hlast.
  assert (d ∈ filter (λ d, receiver d = s) ds) as Hin.
  { apply last_Some in Hlast as [l ->]. apply elem_of_app. right. left. }
  by apply list_elem_of_filter in Hin as [? ?].
Qed.

Lemma outlinedBy_object d o : outlinedBy d = Some o → objectOf d = Some o.
Proof.
  unfold outlinedBy, outlined, objectOf.
  destruct (deliveredHoverable d) as [[hovers [object|]]|]; [|done|done].
  by destruct (_ || _ || _).
Qed.

Lemma deliver_cases st d :
  deliver st d
  = match outlinedBy d with
    | Some o => _setOutline st (receiver d) o (deliveredSelected d)
    | None => _clearOutline st (receiver d)
    end.
Proof.
  unfold deliver, Selector_onValue, outlinedBy, outlined.
  assert (∀ hovers : nat, negb (hovers =? 0) = bool_decide (0 < hovers)%nat) as Hnz.
  { intros [|k]; [done|]. cbn [negb Nat.eqb]. symmetry. apply bool_decide_eq_true_2. lia. }
  destruct (deliveredHoverable d) as [[hovers [object|]]|]; [|done|done].
  rewrite Hnz. by destruct (_ || _ || _).
Qed.

Lemma deliver_object st d : _outlineObject (deliver st d) !! receiver d = outlinedBy d.
Proof.
  rewrite deliver_cases. destruct (outlinedBy d);
    [apply setOutline_object | apply clearOutline_object].
Qed.

Lemma deliver_other st d s :
  s ≠ receiver d → _outlineObject (deliver st d) !! s = _outlineObject st !! s.
Proof.
  intros Hne. rewrite deliver_cases. destruct (outlinedBy d);
    [by apply setOutline_other | by apply clearOutline_other].
Qed.

Lemma clearOutline_meshes_lookup st s n :
  meshes (_clearOutline st s) !! n
  = match _outlineObject st !! s with
    | Some old => if decide (n ∈ meshNodes old) then Some (mkMesh false Noop)
                  else meshes st !! n
    | None => meshes st !! n
    end.
Proof.
  unfold _clearOutline. destruct (_outlineObject st !! s); [|done].
  simpl. apply setMeshes_lookup.
Qed.

Lemma deliver_meshes st d n :
  meshes (deliver st d) !! n
  = match outlinedBy d with
    | Some o =>
        if decide (n ∈ meshNodes o)
        then Some (mkMesh true (ForceOpacity (deliveredSelected d) 0))
        else meshes (_clearOutline st (receiver d)) !! n
    | None => meshes (_clearOutline st (receiver d)) !! n
    end.
Proof.
  rewrite deliver_cases. destruct (outlinedBy d) as [o|]; [|done].
  unfold _setOutline. case_bool_decide; simpl; apply setMeshes_lookup.
Qed.

Lemma deliver_inv st d : outlineInv st → outlineInv (deliver st d).
Proof.
  intros Hst. rewrite deliver_cases. destruct (outlinedBy d);
    [by apply setOutline_inv | by apply clearOutline_inv].
Qed.

Lemma deliver_target st d :
  (engineOnAfterRender st = true → renderTarget st = true) →
  engineOnAfterRender (deliver st d) = true → renderTarget (deliver st d) = true.
Proof.
  intros Hst.
  assert (∀ s, engineOnAfterRender (_clearOutline st s) = true →
               renderTarget (_clearOutline st s) = true) as Hclear.
  { intros s. unfold _clearOutline. destruct (_outlineObject st !! s); [|done].
    simpl. case_bool_decide; [|done]. by destruct (outlineRemover st). }
  rewrite deliver_cases. destruct (outlinedBy d) as [o|]; [|by apply Hclear].
  unfold _setOutline. case_bool_decide; simpl; [done|by apply Hclear].
Qed.

Lemma deliverAll_snoc ds d : deliverAll (ds ++ [d]) = deliver (deliverAll ds) d.
Proof. unfold deliverAll. by rewrite foldl_app. Qed.

Lemma deliverAll_inv ds :
  outlineInv (deliverAll ds)
  ∧ (engineOnAfterRender (deliverAll ds) = true → renderTarget (deliverAll ds) = true).
Proof.
  induction ds as [|d ds [IH1 IH2]] using rev_ind.
  - split; [|done]. unfold outlineInv. simpl. split; [done|]. split; [split; [done|lia]|lia].
  - rewrite deliverAll_snoc. split; [by apply deliver_inv|by apply deliver_target].
Qed.

Lemma separate_snoc ds d : separate (ds ++ [d]) → separate ds.
Proof.
  intros Hsep d1 d2 o1 o2 n H1 H2. apply Hsep; apply elem_of_app; by left.
Qed.

(** An outlined object is the object of the last delivery to its selector. *)
Lemma tracks_outlined ds st s os :
  outlineTracks ds st → _outlineObject st !! s = Some os →
  ∃ d, latest s ds = Some d ∧ objectOf d = Some os ∧ d ∈ ds ∧ receiver d = s.
Proof.
  intros (H1 & _) Hos. rewrite H1 in Hos.
  destruct (latest s ds) as [d|] eqn:Hd; [|done].
  destruct (latest_elem s ds d Hd) as [? ?]. exists d.
  split_and!; try done. by apply outlinedBy_object.
Qed.

Lemma tracks_step ds st d0 :
  separate (ds ++ [d0]) → outlineTracks ds st → outlineTracks (ds ++ [d0]) (deliver st d0).
Proof.
  intros Hsep Htracks. pose proof Htracks as (H1 & H2 & H3).
  assert (d0 ∈ ds ++ [d0]) as Hd0 by (apply elem_of_app; right; left).
  (* a mesh of an object outlined by another selector is out of the reach of [d0] *)
  assert (∀ s os n, s ≠ receiver d0 → _outlineObject st !! s = Some os →
                    n ∈ meshNodes os →
                    meshes (deliver st d0) !! n = meshes st !! n) as Hframe.
  { intros s os n Hne Hos Hn.
    destruct (tracks_outlined ds st s os Htracks Hos) as (d & _ & Hobj & Hd & Hrec).
    assert (d ∈ ds ++ [d0]) as Hd' by (apply elem_of_app; by left).
    assert (receiver d ≠ receiver d0) as Hne' by congruence.
    rewrite deliver_meshes, clearOutline_meshes_lookup.
    assert ((match _outlineObject st !! receiver d0 with
             | Some old => if decide (n ∈ meshNodes old) then Some (mkMesh false Noop)
                           else meshes st !! n
             | None => meshes st !! n
             end) = meshes st !! n) as ->.
    { destruct (_outlineObject st !! receiver d0) as [old|] eqn:Eold; [|done].
      destruct (tracks_outlined ds st _ old Htracks Eold) as (dt & _ & Hobjt & Hdt & Hrect).
      rewrite decide_False; [done|].
      apply (Hsep d dt os old n); try done; [apply elem_of_app; by left|congruence]. }
    destruct (outlinedBy d0) as [o|] eqn:Eo; [|done].
    rewrite decide_False; [done|].
    apply (Hsep d d0 os o n); try done. by apply outlinedBy_object. }
  split_and!.
  - intros s. rewrite latest_snoc. destruct (decide (receiver d0 = s)) as [<-|Hne].
    + apply deliver_object.
    + rewrite deliver_other by done. apply H1.
  - intros s os d n Hos Hlat Hn. rewrite latest_snoc in Hlat.
    destruct (decide (receiver d0 = s)) as [<-|Hne].
    + injection Hlat as <-. rewrite deliver_object in Hos.
      by rewrite deliver_meshes, Hos, decide_True.
    + rewrite deliver_other in Hos by done.
      rewrite (Hframe s os n) by done. by eapply H2.
  - intros n m Hm.
    destruct (outlinedBy d0) as [o|] eqn:Eo.
    + destruct (decide (n ∈ meshNodes o)) as [Hn|Hn].
      * right. exists (receiver d0), o. by rewrite deliver_object.
      * rewrite deliver_meshes, Eo, decide_False, clearOutline_meshes_lookup in Hm by done.
        destruct (_outlineObject st !! receiver d0) as [old|] eqn:Eold.
        -- destruct (decide (n ∈ meshNodes old)) as [Hold|Hold]; [left; congruence|].
           destruct (H3 n m Hm) as [?|(s & os & Hos & Hns)]; [by left|right].
           exists s, os. split; [|done]. rewrite deliver_other; [done|]. congruence.
        -- destruct (H3 n m Hm) as [?|(s & os & Hos & Hns)]; [by left|right].
           exists s, os. split; [|done]. rewrite deliver_other; [done|]. congruence.
    + rewrite deliver_meshes, Eo, clearOutline_meshes_lookup in Hm.
      destruct (_outlineObject st !! receiver d0) as [old|] eqn:Eold.
      * destruct (decide (n ∈ meshNodes old)) as [Hold|Hold]; [left; congruence|].
        destruct (H3 n m Hm) as [?|(s & os & Hos & Hns)]; [by left|right].
        exists s, os. split; [|done]. rewrite deliver_other; [done|]. congruence.
      * destruct (H3 n m Hm) as [?|(s & os & Hos & Hns)]; [by left|right].
        exists s, os. split; [|done]. rewrite deliver_other; [done|]. congruence.
Qed.

Lemma tracks_all ds : separate ds → outlineTracks ds (deliverAll ds).
Proof.
  induction ds as [|d ds IH] using rev_ind; intros Hsep.
  - split_and!; [done| |done]. intros s os d n Hos. unfold deliverAll in Hos. simpl in Hos.
    by rewrite lookup_empty in Hos.
  - rewrite deliverAll_snoc. apply tracks_step; [done|]. by eapply IH, separate_snoc.
Qed.

(** C7: when the render objects of different selectors share no mesh, after
    any deliveries of reactive values a selector outlines the object of its
    hoverable component when there is one and it is hovered, group-hovered or
    selected, and nothing otherwise.  In the first case every mesh of the
    object has the outline layer enabled and is drawn into the render target
    of the outline pass, with opacity 0.8 when selected and 0.4 otherwise; when
    the object is neither hovered nor group-hovered nor selected its meshes
    have the layer disabled and no opacity override, and are not drawn into
    the render target. *)
Theorem C7_outline_follows_state (ds : list Delivery) (this : string) (d : Delivery) :
  separate ds →
  latest this ds = Some d →
  let st := deliverAll ds in
  let forced := if deliveredSelected d then 4 # 5 else 2 # 5 in
  _outlineObject st !! this = outlinedBy d
  ∧ (∀ object n, outlinedBy d = Some object → n ∈ meshNodes object →
       (∃ m, meshes st !! n = Some m ∧ highlightedWith forced m)
       ∧ ∀ opacity, outlinePass st n opacity = Some forced)
  ∧ (∀ object n, outlinedBy d = None → objectOf d = Some object →
       n ∈ meshNodes object →
       (meshes st !! n = None ∨ ∃ m, meshes st !! n = Some m ∧ notHighlighted m)
       ∧ ∀ opacity, outlinePass st n opacity = None).
Proof.
  intros Hsep Hlatest st forced.
  pose proof (tracks_all ds Hsep) as Htracks. fold st in Htracks.
  pose proof Htracks as (H1 & H2 & H3).
  destruct (deliverAll_inv ds) as ((Hcount & Hhook & _) & Htarget).
  fold st in Hcount, Hhook, Htarget.
  assert (_outlineObject st !! this = outlinedBy d) as Hthis by (by rewrite H1, Hlatest).
  split; [exact Hthis|]. split.
  - intros object n Hout Hn. rewrite Hout in Hthis.
    pose proof (H2 this object d n Hthis Hlatest Hn) as Hmesh.
    pose proof (forced_highlighted (deliveredSelected d)) as Hforced.
    split; [by eexists|]. intros opacity.
    assert (engineOnAfterRender st = true) as Hon.
    { apply Hhook. pose proof (size_positive _ _ _ Hthis). lia. }
    unfold outlinePass. rewrite Hon, (Htarget Hon), Hmesh. cbn [andb outlineLayer].
    destruct Hforced as [_ Hrender]. by rewrite Hrender.
  - intros object n Hout Hobj Hn. rewrite Hout in Hthis.
    destruct (latest_elem this ds d Hlatest) as [Hd Hrec].
    assert (∀ m, meshes st !! n = Some m → m = mkMesh false Noop) as Hoff.
    { intros m Hm. destruct (H3 n m Hm) as [?|(s & os & Hos & Hns)]; [done|].
      destruct (tracks_outlined ds st s os Htracks Hos) as (d' & _ & Hobj' & Hd' & Hrec').
      destruct (decide (s = this)) as [->|Hne]; [congruence|].
      destruct (Hsep d' d os object n); try done. congruence. }
    destruct (meshes st !! n) as [m|] eqn:Hm.
    + rewrite (Hoff m eq_refl). split; [right; by eexists|].
      intros opacity. unfold outlinePass. rewrite Hm, (Hoff m eq_refl). simpl.
      by destruct (_ && _).
    + split; [by left|]. intros opacity. unfold outlinePass. rewrite Hm.
      by destruct (_ && _).
Qed.
End OutlineTracking.

(** ** The further properties at work on the small scene *)

Lemma control_click_twice_restores_witness :
  control Scenario.controlKeys = true
  ∧ let s1 := state_of (Selector_onPointerDown (H := Scenario.host) (Some Scenario.camera)
                          Scenario.controlKeys (Scenario.hoverAt 3 1)
                          Scenario.worldBoth Scenario.crateSelector) in
    let s2 := state_of (Selector_onPointerDown (H := Scenario.host) (Some Scenario.camera)
                          Scenario.controlKeys (Scenario.hoverAt 3 1) s1.1 s1.2) in
    ∀ j, j ∈ selection s2.1 ↔ j ∈ selection Scenario.worldBoth.
Proof.
  split; [reflexivity|].
  exact (control_click_twice_restores (H := Scenario.host) (Some Scenario.camera)
           (Some Scenario.camera) Scenario.controlKeys Scenario.controlKeys
           (Scenario.hoverAt 3 1) (Scenario.hoverAt 3 1)
           Scenario.worldBoth Scenario.crateSelector eq_refl eq_refl).
Defined.

Lemma plain_click_selects_and_settles_witness :
  control Scenario.noKeys = false
  ∧ let s1 := state_of (Selector_onPointerDown (H := Scenario.host) (Some Scenario.camera)
                          Scenario.noKeys (Scenario.hoverAt 3 1)
                          Scenario.world Scenario.crateSelector) in
    let s2 := state_of (Selector_onPointerDown (H := Scenario.host) (Some Scenario.camera)
                          Scenario.noKeys (Scenario.hoverAt 3 1) s1.1 s1.2) in
    GameObject.id (gameObject Scenario.crateSelector) ∈ selection s1.1
    ∧ selection s2.1 = selection s1.1.
Proof.
  split; [reflexivity|].
  exact (plain_click_selects_and_settles (H := Scenario.host) (Some Scenario.camera)
           (Some Scenario.camera) Scenario.noKeys Scenario.noKeys
           (Scenario.hoverAt 3 1) (Scenario.hoverAt 3 1)
           Scenario.world Scenario.crateSelector eq_refl eq_refl).
Defined.

Lemma missed_pointer_down_disables_drag_witness :
  let hover := Scenario.hoverAt 3 1 in
  Selector_getXZPlaneIntersection (H := Scenario.host) None hover vec3.create
  = (false, vec3.create)
  ∧ let s := state_of (Selector_onPointerDown (H := Scenario.host) None Scenario.noKeys
                         hover Scenario.worldBoth Scenario.crateSelector) in
    ∀ cam' keys' hover',
      Selector_onPointerDrag (H := Scenario.host) cam' keys' hover' s.1 s.2 = NoEdit.
Proof.
  intros hover. split; [reflexivity|].
  exact (missed_pointer_down_disables_drag (H := Scenario.host) None Scenario.noKeys hover
           Scenario.worldBoth Scenario.crateSelector vec3.create eq_refl).
Defined.

Lemma drag_throws_iff_selected_id_unknown_witness :
  let cam := Some Scenario.camera in
  let hover := Scenario.hoverAt 3 1 in
  let i2c := vec3.make (1 # 2) 0 (1 # 2) in
  let w := Gestures.worldWithUnknown in
  let this := Scenario.crateSelector in
  let drag := Selector_onPointerDrag (H := Scenario.host) cam Scenario.noKeys hover w this in
  _intersectionToCenter this = Some i2c
  ∧ Selector_getXZPlaneIntersection (H := Scenario.host) cam hover vec3.create
    = (true, Scenario.grabPoint)
  ∧ (drag = DragThrown
     ↔ GameObject.id (gameObject this) ∈ selection w
       ∧ ∃ i, i ∈ selection w ∧ gameObjects w !! i = None)
  ∧ (drag ≠ DragThrown → ∃ edit, drag = Applied edit).
Proof.
  intros cam hover i2c w this drag.
  assert (_intersectionToCenter this = Some i2c) as H1 by reflexivity.
  assert (Selector_getXZPlaneIntersection (H := Scenario.host) cam hover vec3.create
          = (true, Scenario.grabPoint)) as H2 by (vm_compute; reflexivity).
  split; [exact H1|]. split; [exact H2|].
  exact (drag_throws_iff_selected_id_unknown (H := Scenario.host) cam Scenario.noKeys hover
           w this i2c Scenario.grabPoint H1 H2).
Defined.


Lemma scenario_uniqueIds : uniqueIds (H := Scenario.host).
Proof.
  assert (∀ b o, o ∈ overlapBounds (Host := Scenario.host) b →
                 o = Scenario.crate ∨ o = Scenario.barrel) as Hscene.
  { intros b o Ho. simpl in Ho.
    apply list_elem_of_fmap in Ho as ([o' pos] & -> & Hin).
    apply list_elem_of_filter in Hin as [_ Hin]. unfold Scenario.scene in Hin.
    apply elem_of_cons in Hin as [[= -> _]|Hin]; [by left|].
    apply elem_of_cons in Hin as [[= -> _]|Hin]; [by right|].
    by apply elem_of_nil in Hin. }
  intros b b' o o' Ho Ho' Hid.
  destruct (Hscene b o Ho) as [->| ->], (Hscene b' o' Ho') as [->| ->];
    done || discriminate Hid.
Qed.

Lemma marquee_drag_tracks_overlap_witness :
  let w := Gestures.pressed.1 in
  let c := Gestures.pressed.2 in
  let hover := Scenario.hoverAt 2 2 in
  _selectRegion c = Some Gestures.pressedRegion
  ∧ getXZPlaneIntersection c hover vec3.create = (true, Gestures.marqueeEnd)
  ∧ selectors w = []
  ∧ let s := CameraController_onPointerDrag Scenario.marqueeKeys hover w c in
    (∀ o, o ∈ lastSelectors s.1
          ↔ o ∈ overlapBounds (Host := Scenario.host)
                  (marqueeBounds (_selectStartPosition c) Gestures.marqueeEnd))
    ∧ NoDup (lastSelectors s.1)
    ∧ selectors s.1 = []
    ∧ selection s.1 = selection w.
Proof.
  intros w c hover.
  assert (_selectRegion c = Some Gestures.pressedRegion) as H1 by (vm_compute; reflexivity).
  assert (getXZPlaneIntersection c hover vec3.create = (true, Gestures.marqueeEnd)) as H2
    by (vm_compute; reflexivity).
  assert (selectors w = []) as H3 by reflexivity.
  split; [exact H1|]. split; [exact H2|]. split; [exact H3|].
  exact (marquee_drag_tracks_overlap (H := Scenario.host) Scenario.marqueeKeys hover w c
           Gestures.pressedRegion Gestures.marqueeEnd H1 H2 H3).
Defined.

Lemma marquee_release_witness :
  let w := Gestures.dragged.1 in
  let c := Gestures.dragged.2 in
  is_Some (_selectRegion c)
  ∧ let s := CameraController_onPointerUp w c in
    (∀ x, x ∈ selection s.1
          ↔ x ∈ selection w ∨ ∃ o, o ∈ lastSelectors w ∧ GameObject.name o = x)
    ∧ lastSelectors s.1 = []
    ∧ _selectRegion s.2 = None
    ∧ pose s.2 = pose c
    ∧ (∀ o, o ∈ lastSelectors w → groupHovered s.1 !! GameObject.id o = Some false).
Proof.
  intros w c.
  assert (is_Some (_selectRegion c)) as H1 by (eexists; vm_compute; reflexivity).
  split; [exact H1|].
  exact (marquee_release (H := Scenario.host) w c H1).
Defined.

Lemma group_hover_tracks_marquee_witness :
  let w := Scenario.world in
  let c := Scenario.camera in
  let es := take 2 Scenario.marquee in
  uniqueIds (H := Scenario.host)
  ∧ selectors w = [] ∧ lastSelectors w = []
  ∧ (∀ i, groupHovered w !! i ≠ Some true)
  ∧ let s := cameraRun (w, c) es in
    selectors s.1 = []
    ∧ (∀ i, groupHovered s.1 !! i = Some true
            ↔ ∃ o, o ∈ lastSelectors s.1 ∧ GameObject.id o = i)
    ∧ (lastSelectors s.1 ≠ [] → is_Some (_selectRegion s.2)).
Proof.
  intros w c es.
  assert (∀ i, groupHovered w !! i ≠ Some true) as H1
    by (intros i; simpl; rewrite lookup_empty; discriminate).
  split; [exact scenario_uniqueIds|]. split; [reflexivity|]. split; [reflexivity|].
  split; [exact H1|].
  exact (group_hover_tracks_marquee (H := Scenario.host) w c es scenario_uniqueIds
           eq_refl eq_refl H1).
Defined.

Lemma outline_update_frame_witness :
  let st := foldl outlineStep initialOutline Gestures.outlineOps in
  let st' := Selector_onValue st "9" (Some (1%nat, Some (Node 5 true []))) false false in
  "7" ≠ "9"
  ∧ _outlineObject st' !! "7" = _outlineObject st !! "7".
Proof.
  intros st st'.
  assert ("7" ≠ "9") as H1 by discriminate.
  split; [exact H1|].
  exact (proj1 (outline_update_frame st "9" (Some (1%nat, Some (Node 5 true []))) false false)
           "7" H1).
Defined.

Lemma installed_hook_has_target_and_remover_witness :
  let st := foldl outlineStep initialOutline Gestures.outlineOps in
  engineOnAfterRender st = true
  ∧ renderTarget st = true ∧ outlineRemover st = RemoveHook.
Proof.
  intros st.
  assert (engineOnAfterRender st = true) as H1 by reflexivity.
  split; [exact H1|].
  exact (installed_hook_has_target_and_remover Gestures.outlineOps H1).
Defined.

Lemma set_then_clear_restores_witness :
  let st := foldl outlineStep initialOutline Gestures.outlineOps in
  _outlineObject st !! "9" = None
  ∧ outlineBookkeeping (_clearOutline (_setOutline st "9" Scenario.box true) "9")
    = outlineBookkeeping st.
Proof.
  intros st.
  assert (_outlineObject st !! "9" = None) as H1 by (vm_compute; reflexivity).
  split; [exact H1|].
  exact (set_then_clear_restores Gestures.outlineOps "9" Scenario.box true H1).
Defined.



Lemma deliveries_apart_separate : separate Deliveries.apart.
Proof.
  intros d1 d2 o1 o2 n H1 H2 Hne Ho1 Ho2 Hn Hn'. unfold Deliveries.apart in *.
  apply elem_of_cons in H1 as [->|H1]; [|apply elem_of_cons in H1 as [->|H1];
                                          [|by apply elem_of_nil in H1]];
    (apply elem_of_cons in H2 as [->|H2]; [|apply elem_of_cons in H2 as [->|H2];
                                             [|by apply elem_of_nil in H2]]);
    try done;
    injection Ho1 as <-; injection Ho2 as <-; simpl in Hn, Hn';
    repeat (apply elem_of_cons in Hn as [->|Hn]; [by repeat
              (apply elem_of_cons in Hn' as [Hn'|Hn']; [discriminate Hn'|]);
              apply elem_of_nil in Hn'|]);
    by apply elem_of_nil in Hn.
Qed.

Lemma C7_outline_follows_state_witness :
  let ds := Deliveries.apart in
  let d := Deliveries.crateSelected in
  let st := deliverAll ds in
  separate ds
  ∧ latest "7" ds = Some d
  ∧ outlinedBy d = Some Scenario.box
  ∧ 1%nat ∈ meshNodes Scenario.box
  ∧ (∃ m, meshes st !! 1%nat = Some m ∧ highlightedWith (4 # 5) m)
  ∧ ∀ opacity, outlinePass st 1%nat opacity = Some (4 # 5).
Proof.
  intros ds d st.
  assert (latest "7" ds = Some d) as H1 by reflexivity.
  assert (outlinedBy d = Some Scenario.box) as H2 by reflexivity.
  assert (1%nat ∈ meshNodes Scenario.box) as H3 by (simpl; left).
  split; [exact deliveries_apart_separate|]. split; [exact H1|]. split; [exact H2|].
  split; [exact H3|].
  exact (proj1 (proj2 (C7_outline_follows_state ds "7" d deliveries_apart_separate H1))
           Scenario.box 1%nat H2 H3).
Defined.

(** Two ways in which a selected selector is left without its outline: its
    hoverable component has no object (here the outline it had is cleared), or
    a mesh of its object belongs to the object of another selector as well
    (here the lid of the selected crate's box, when the lid's own selector
    stops being hovered). *)
Lemma C7_counterexample :
  ¬ (∀ st this hoverable (groupHovered selected : bool),
       is_Some (_outlineObject (Selector_onValue st this hoverable groupHovered selected)
                  !! this)
       ↔ (match hoverable with Some (hovers, _) => (0 < hovers)%nat | None => False end
          ∨ groupHovered = true ∨ selected = true))
  ∧ ¬ (∀ ds this d object n,
         latest this ds = Some d → outlinedBy d = Some object → n ∈ meshNodes object →
         ∃ m, meshes (deliverAll ds) !! n = Some m
              ∧ highlightedWith (if deliveredSelected d then 4 # 5 else 2 # 5) m).
Proof.
  split.
  - intros Hall.
    destruct (Hall (_setOutline initialOutline "7" Scenario.box true) "7"
                (Some (0%nat, None)) false true) as [_ Hback].
    destruct Hback as [object Hobject]; [by right; right|].
    vm_compute in Hobject. discriminate Hobject.
  - intros Hall.
    destruct (Hall Deliveries.nested "7" Deliveries.crateSelected Scenario.box 2%nat)
      as (m & Hm & Hlayer & _); [reflexivity|reflexivity|simpl; right; left|].
    vm_compute in Hm. injection Hm as <-. discriminate Hlayer.
Qed.

Lemma marquee_gesture_selects_names_witness :
  let keys := Scenario.marqueeKeys in
  let h0 := Scenario.hoverAt 0 0 in
  let h1 := Scenario.hoverAt 2 2 in
  let w := Scenario.world in
  let c := Scenario.camera in
  button0 keys = true ∧ shift keys = true
  ∧ getXZPlaneIntersection c h0 (_selectStartPosition c) = (true, Gestures.marqueeStart)
  ∧ getXZPlaneIntersection c h1 vec3.create = (true, Gestures.marqueeEnd)
  ∧ selectors w = []
  ∧ let s := cameraRun (w, c) [PointerDown keys h0; PointerDrag keys h1; PointerUp] in
    (∀ x, x ∈ selection s.1
          ↔ ∃ o, o ∈ overlapBounds (Host := Scenario.host)
                       (marqueeBounds Gestures.marqueeStart Gestures.marqueeEnd)
                 ∧ GameObject.name o = x)
    ∧ lastSelectors s.1 = []
    ∧ _selectRegion s.2 = None.
Proof.
  intros keys h0 h1 w c.
  assert (getXZPlaneIntersection c h0 (_selectStartPosition c)
          = (true, Gestures.marqueeStart)) as H1 by (vm_compute; reflexivity).
  assert (getXZPlaneIntersection c h1 vec3.create = (true, Gestures.marqueeEnd)) as H2
    by (vm_compute; reflexivity).
  split; [reflexivity|]. split; [reflexivity|]. split; [exact H1|]. split; [exact H2|].
  split; [reflexivity|].
  exact (marquee_gesture_selects_names (H := Scenario.host) keys keys h0 h1 w c
           Gestures.marqueeStart Gestures.marqueeEnd eq_refl eq_refl H1 H2 eq_refl).
Defined.

Lemma marquee_drags_keep_camera_witness :
  let w := Gestures.dragged.1 in
  let c := Gestures.dragged.2 in
  let drags := [(Scenario.marqueeKeys, Scenario.hoverAt 5 5);
                (Scenario.noKeys, Scenario.hoverAt 1 1)] in
  is_Some (_selectRegion c)
  ∧ let s := cameraRun (w, c) ((λ kh, PointerDrag kh.1 kh.2) <$> drags) in
    azimuth s.2 = azimuth c ∧ elevation s.2 = elevation c ∧ distance s.2 = distance c
    ∧ position s.2 = position c ∧ rotation s.2 = rotation c
    ∧ is_Some (_selectRegion s.2) ∧ selection s.1 = selection w.
Proof.
  intros w c drags.
  assert (is_Some (_selectRegion c)) as H1 by (eexists; vm_compute; reflexivity).
  split; [exact H1|].
  exact (marquee_drags_keep_camera (H := Scenario.host) drags w c H1).
Defined.

(** ** Orbit drags *)

Section MoreOrbit.
Context `{Host}.
Implicit Types (w : World) (c : CameraController).

(** Drags with the first button and no marquee turn the camera only: whatever
    the movements, the target and the distance stay as they are, no marquee
    starts and the shared state is not touched. *)
Theorem orbit_drags_turn_only (drags : list (Keys * Hover)) w c :
  _selectRegion c = None →
  Forall (λ kh, button0 kh.1 = true) drags →
  let s := cameraRun (w, c) ((λ kh, PointerDrag kh.1 kh.2) <$> drags) in
  target s.2 = target c ∧ distance s.2 = distance c
  ∧ _selectRegion s.2 = None ∧ s.1 = w.
Proof.
  intros Hregion Hall. revert c Hregion.
  induction Hall as [|[keys hover] drags Hb _ IH]; intros c Hregion s; [done|].
  subst s. rewrite !fmap_cons. unfold cameraRun. cbn [foldl cameraStep fst snd].
  simpl in Hb.
  set (c1 := setProperties c (target c)
               (azimuth c + vec3.x (viewMovement hover) * -180)
               (clamp (elevation c + vec3.y (viewMovement hover) * 180) (-90) 90)
               (distance c)).
  assert (CameraController_onPointerDrag keys hover w c = (w, c1)) as ->.
  { unfold CameraController_onPointerDrag. by rewrite Hregion, Hb. }
  assert (_selectRegion c1 = None) as Hregion1 by exact Hregion.
  destruct (IH c1 Hregion1) as (Ht & Hd & Hr & Hw).
  unfold cameraRun in *. by split_and!.
Qed.
End MoreOrbit.

Lemma orbit_drags_turn_only_witness :
  let orbit := mkKeys false false true false in
  let drags := [(orbit, mkHover vec3.create (vec3.make (1 # 4) (1 # 8) 0));
                (orbit, mkHover vec3.create (vec3.make (3 # 1) 0 0))] in
  let w := Scenario.world in
  let c := Scenario.camera in
  _selectRegion c = None
  ∧ Forall (λ kh : Keys * Hover, button0 kh.1 = true) drags
  ∧ let s := cameraRun (w, c) ((λ kh, PointerDrag kh.1 kh.2) <$> drags) in
    target s.2 = target c ∧ distance s.2 = distance c
    ∧ _selectRegion s.2 = None ∧ s.1 = w.
Proof.
  intros orbit drags w c.
  assert (Forall (λ kh : Keys * Hover, button0 kh.1 = true) drags) as H1
    by (repeat constructor).
  split; [reflexivity|]. split; [exact H1|].
  exact (orbit_drags_turn_only (H := Scenario.host) drags w c eq_refl H1).
Defined.
